(** * Command history of the codex CLI: a shallow embedding and its properties

    Source: [codex-cli/src/utils/storage/command-history.ts].

    The module keeps one JSON document on disk ([HISTORY_FILE]) and offers
    [loadCommandHistory], [saveCommandHistory], [addToHistory],
    [clearCommandHistory] and the private predicate [isSensitiveCommand].

    Modelling choices:
    - a JavaScript string is a [string]; one [ascii] stands for one code
      unit, so the model covers the code units 0..255;
    - a JavaScript number is an integer in [Z] (time stamps are epoch
      milliseconds, [maxSize] is a count); the texts [Number::toString]
      gives are the decimal ones, as the runtime does below 2^53;
      numerals with a fraction or an exponent, integers beyond 2^53 and
      escapes above U+00FF denote values this model cannot hold, so
      [JSON.parse] below reads a fragment of JSON and answers a syntax
      error outside it; the fragment holds every document the module
      writes, and what [loadCommandHistory] does with every text a
      runtime can parse is stated over any parser ([AnyRuntime]);
    - the values a history array holds at run time are the JSON values
      ([JSON.value]): the objects [addToHistory] builds and whatever
      [JSON.parse] returned; [undefined] is [None] in an [option];
    - the asynchronous functions run to completion one after another
      (there is one caller), so [await] is sequencing in a
      state-and-exception monad over [World];
    - the file system is the content of [HISTORY_FILE] together with the
      outcomes the environment has in store for the coming calls of
      [fs.mkdir], [fs.readFile] and [fs.writeFile]: fulfilled, rejected,
      or (a write) rejected after part of the data reached the file;
    - the runtime's regular-expression compiler is an interface
      ([RegExpEngine]); the five literal patterns of the source are run
      by a backtracking matcher for the constructs they use. *)

From Stdlib Require Import ZArith List String Ascii Bool Arith Lia.
From Stdlib Require Decimal DecimalZ.
Import ListNotations.

Local Open Scope string_scope.
Local Open Scope list_scope.

(* ================================================================== *)
(** * Part I: definitions *)
(* ================================================================== *)

(** ** Code units and strings *)

Module Str.

Definition chars (s : string) : list ascii := list_ascii_of_string s.
Definition ofChars (l : list ascii) : string := string_of_list_ascii l.

Definition code (c : ascii) : nat := nat_of_ascii c.

Definition between (lo hi : nat) (c : ascii) : bool :=
  (lo <=? code c)%nat && (code c <=? hi)%nat.

Definition isDigit (c : ascii) : bool := between 48 57 c.
Definition isUpper (c : ascii) : bool := between 65 90 c.
Definition isLower (c : ascii) : bool := between 97 122 c.
Definition isAlnum (c : ascii) : bool := isUpper c || isLower c || isDigit c.

(** ECMAScript [WhiteSpace] and [LineTerminator] below U+0100: TAB, LF, VT,
    FF, CR, SP and NBSP.  These are what [String.prototype.trim] strips. *)
Definition isTrimSpace (c : ascii) : bool :=
  between 9 13 c || (code c =? 32)%nat || (code c =? 160)%nat.

Fixpoint trimStart (l : list ascii) : list ascii :=
  match l with
  | c :: l' => if isTrimSpace c then trimStart l' else l
  | [] => []
  end.

Definition trimEnd (l : list ascii) : list ascii := List.rev (trimStart (List.rev l)).

(** [s.trim()] *)
Definition trim (s : string) : string := ofChars (trimEnd (trimStart (chars s))).

(** The simple upper-case mapping of a code unit, as far as it stays below
    U+0100 (what [Canonicalize] of a case-insensitive pattern compares). *)
Definition toUpper (c : ascii) : ascii :=
  if isLower c then ascii_of_nat (code c - 32)
  else if between 224 254 c && negb (code c =? 247)%nat then ascii_of_nat (code c - 32)
  else c.

Definition toLower (c : ascii) : ascii :=
  if isUpper c then ascii_of_nat (code c + 32) else c.

End Str.

(** ** Regular expressions: the fragment the source's literals use *)

Module RegExp.

(** An atom that consumes one character is given by its set of
    characters.  [AtLeast n p] is [p{n,}] (greedy). *)
Inductive regex : Type :=
| Eps
| Chr (p : ascii -> bool)
| WordBoundary
| Cat (r1 r2 : regex)
| AtLeast (n : nat) (p : ascii -> bool).

(** [IsWordChar]: the characters of [\w]. *)
Definition isWordChar (c : ascii) : bool :=
  Str.isAlnum c || (Str.code c =? 95)%nat.

Definition wordAt (c : option ascii) : bool :=
  match c with Some a => isWordChar a | None => false end.

(** A matcher state is the character before the current position (if
    any) and the rest of the input; [k] is the continuation. *)
Definition Cont := option ascii -> list ascii -> bool.

Fixpoint repeatMatcher (p : ascii -> bool) (min : nat)
         (prev : option ascii) (s : list ascii) (k : Cont) : bool :=
  match s with
  | c :: s' =>
      if p c
      then repeatMatcher p (pred min) (Some c) s' k || ((min =? 0)%nat && k prev s)
      else (min =? 0)%nat && k prev s
  | [] => (min =? 0)%nat && k prev s
  end.

Fixpoint matcher (r : regex) (prev : option ascii) (s : list ascii) (k : Cont) : bool :=
  match r with
  | Eps => k prev s
  | Chr p =>
      match s with
      | c :: s' => p c && k (Some c) s'
      | [] => false
      end
  | WordBoundary =>
      xorb (wordAt prev) (wordAt (hd_error s)) && k prev s
  | Cat r1 r2 => matcher r1 prev s (fun prev' s' => matcher r2 prev' s' k)
  | AtLeast n p => repeatMatcher p n prev s k
  end.

(** [RegExpBuiltinExec] without the [g] and [y] flags: try every start
    index from 0 to the length of the input. *)
Fixpoint search (r : regex) (prev : option ascii) (s : list ascii) : bool :=
  matcher r prev s (fun _ _ => true)
  || match s with
     | c :: s' => search r (Some c) s'
     | [] => false
     end.

(** [r.test(str)] *)
Definition test (r : regex) (str : string) : bool :=
  search r None (Str.chars str).

(** A pattern character under the [i] flag. *)
Definition chrI (ch : ascii) : regex :=
  Chr (fun c => Ascii.eqb (Str.toUpper c) (Str.toUpper ch)).

Fixpoint literalI (w : list ascii) : regex :=
  match w with
  | [] => Eps
  | ch :: w' => Cat (chrI ch) (literalI w')
  end.

(** The class [[A-Za-z0-9-_]]: after the range [0-9] the hyphen and the
    underscore are literal members. *)
Definition tokenChar (c : ascii) : bool :=
  Str.isUpper c || Str.isLower c || Str.isDigit c
  || (Str.code c =? 45)%nat || (Str.code c =? 95)%nat.

(** The character before the current position after [l] was consumed. *)
Definition lastChar (prev : option ascii) (l : list ascii) : option ascii :=
  last (map Some l) prev.

Definition allIn (p : ascii -> bool) (l : list ascii) : Prop :=
  Forall (fun c => p c = true) l.

(** The letters of [mid] are those of [w] up to [Canonicalize]. *)
Definition sameCanonical (mid w : list ascii) : Prop :=
  Forall2 (fun c ch => Str.toUpper c = Str.toUpper ch) mid w.

(** [/\b[A-Za-z0-9-_]{20,}\b/] *)
Definition tokenPattern : regex :=
  Cat WordBoundary (Cat (AtLeast 20 tokenChar) WordBoundary).

(** [/\bw\b/i] *)
Definition wordPatternI (w : string) : regex :=
  Cat WordBoundary (Cat (literalI (Str.chars w)) WordBoundary).

End RegExp.

(** ** Completions *)

Inductive Error : Type :=
| SyntaxError (message : string)
| SystemError (code : string).

Inductive Result (A : Type) : Type :=
| Ok (a : A)
| Thrown (e : Error).

Arguments Ok {A} a.
Arguments Thrown {A} e.

(** [try { body } catch (error) { handler }] around code without effects. *)
Definition tryCatchResult {A : Type} (body : Result A) (handler : Error -> Result A)
  : Result A :=
  match body with
  | Ok a => Ok a
  | Thrown e => handler e
  end.

(** A compiled regular expression without [g] or [y] flag is observed only
    through [test], so it is its predicate on strings. *)
Definition RegExpObject : Type := string -> bool.

(** [new RegExp(source)]: the runtime's compiler, which throws a
    [SyntaxError] on a source that is not a pattern. *)
Class RegExpEngine : Type := {
  RegExp_new : string -> Result RegExpObject
}.

(** ** JSON: values, [JSON.stringify] and [JSON.parse] *)

Module JSON.

Unset Elimination Schemes.

Inductive value : Type :=
| JNull
| JBool (b : bool)
| JNumber (n : Z)
| JString (s : string)
| JArray (elements : list value)
| JObject (members : list (string * value)).

Set Elimination Schemes.

(** Induction over values, with the hypothesis for every element of an
    array and every member of an object. *)
Definition value_ind (P : value -> Prop)
  (Hnull : P JNull)
  (Hbool : forall b, P (JBool b))
  (Hnumber : forall n, P (JNumber n))
  (Hstring : forall s, P (JString s))
  (Harray : forall l, Forall P l -> P (JArray l))
  (Hobject : forall m, Forall (fun kv => P (snd kv)) m -> P (JObject m))
  : forall v, P v :=
  fix go (v : value) : P v :=
    match v with
    | JNull => Hnull
    | JBool b => Hbool b
    | JNumber n => Hnumber n
    | JString s => Hstring s
    | JArray l =>
        Harray l
          ((fix all (l : list value) : Forall P l :=
              match l with
              | [] => Forall_nil P
              | x :: l' => Forall_cons x (go x) (all l')
              end) l)
    | JObject m =>
        Hobject m
          ((fix all (m : list (string * value)) : Forall (fun kv => P (snd kv)) m :=
              match m with
              | [] => Forall_nil _
              | kv :: m' => Forall_cons kv (go (snd kv)) (all m')
              end) m)
    end.

Definition dquote : ascii := ascii_of_nat 34.
Definition newline : ascii := ascii_of_nat 10.
Definition space : ascii := ascii_of_nat 32.

(** *** Serialisation *)

Definition hexDigit (n : nat) : ascii :=
  if (n <? 10)%nat then ascii_of_nat (48 + n) else ascii_of_nat (87 + n).

(** One code unit inside [QuoteJSONString]. *)
Definition quoteChar (c : ascii) : list ascii :=
  let n := Str.code c in
  if (n =? 8)%nat then ["\"; "b"]%char
  else if (n =? 9)%nat then ["\"; "t"]%char
  else if (n =? 10)%nat then ["\"; "n"]%char
  else if (n =? 12)%nat then ["\"; "f"]%char
  else if (n =? 13)%nat then ["\"; "r"]%char
  else if (n =? 34)%nat then ["\"%char; dquote]
  else if (n =? 92)%nat then ["\"; "\"]%char
  else if (n <? 32)%nat
       then ["\"; "u"; "0"; "0"]%char ++ [hexDigit (n / 16); hexDigit (n mod 16)]
  else [c].

Definition quote (s : string) : list ascii :=
  dquote :: flat_map quoteChar (Str.chars s) ++ [dquote].

Fixpoint digitsOf (u : Decimal.uint) : list ascii :=
  match u with
  | Decimal.Nil => []
  | Decimal.D0 u' => "0"%char :: digitsOf u'
  | Decimal.D1 u' => "1"%char :: digitsOf u'
  | Decimal.D2 u' => "2"%char :: digitsOf u'
  | Decimal.D3 u' => "3"%char :: digitsOf u'
  | Decimal.D4 u' => "4"%char :: digitsOf u'
  | Decimal.D5 u' => "5"%char :: digitsOf u'
  | Decimal.D6 u' => "6"%char :: digitsOf u'
  | Decimal.D7 u' => "7"%char :: digitsOf u'
  | Decimal.D8 u' => "8"%char :: digitsOf u'
  | Decimal.D9 u' => "9"%char :: digitsOf u'
  end.

(** [Number::toString] on an integer. *)
Definition numberToString (n : Z) : list ascii :=
  match Z.to_int n with
  | Decimal.Pos u => digitsOf u
  | Decimal.Neg u => "-"%char :: digitsOf u
  end.

Fixpoint join (sep : list ascii) (parts : list (list ascii)) : list ascii :=
  match parts with
  | [] => []
  | [p] => p
  | p :: rest => p ++ sep ++ join sep rest
  end.

Definition isEmpty (l : list ascii) : bool :=
  match l with [] => true | _ => false end.

(** [SerializeJSONProperty] with its [SerializeJSONArray] and
    [SerializeJSONObject]; [gap] is the indentation unit and [indent] the
    current indentation. *)
Fixpoint serialize (gap indent : list ascii) (v : value) : list ascii :=
  match v with
  | JNull => Str.chars "null"
  | JBool true => Str.chars "true"
  | JBool false => Str.chars "false"
  | JNumber n => numberToString n
  | JString s => quote s
  | JArray elements =>
      let stepback := indent in
      let indent := indent ++ gap in
      let partial := map (serialize gap indent) elements in
      match partial with
      | [] => Str.chars "[]"
      | _ :: _ =>
          if isEmpty gap
          then "["%char :: join [","%char] partial ++ ["]"%char]
          else
            let separator := ","%char :: newline :: indent in
            "["%char :: newline :: indent ++ join separator partial
              ++ newline :: stepback ++ ["]"%char]
      end
  | JObject members =>
      let stepback := indent in
      let indent := indent ++ gap in
      let partial :=
        map (fun kv =>
               quote (fst kv) ++ ":"%char :: (if isEmpty gap then [] else [space])
                 ++ serialize gap indent (snd kv))
            members in
      match partial with
      | [] => Str.chars "{}"
      | _ :: _ =>
          if isEmpty gap
          then "{"%char :: join [","%char] partial ++ ["}"%char]
          else
            let separator := ","%char :: newline :: indent in
            "{"%char :: newline :: indent ++ join separator partial
              ++ newline :: stepback ++ ["}"%char]
      end
  end.

(** [JSON.stringify(v, null, space)] for a numeric [space]; [space = 0]
    is the call without a third argument. *)
Definition stringify (v : value) (indentation : nat) : string :=
  Str.ofChars (serialize (repeat space (Nat.min 10 indentation)) [] v).

(** *** Parsing *)

(** JSON white space: TAB, LF, CR and SP. *)
Definition isJsonSpace (c : ascii) : bool :=
  let n := Str.code c in
  (n =? 9)%nat || (n =? 10)%nat || (n =? 13)%nat || (n =? 32)%nat.

Fixpoint skipWs (s : list ascii) : list ascii :=
  match s with
  | c :: s' => if isJsonSpace c then skipWs s' else s
  | [] => []
  end.

Definition hexVal (c : ascii) : option nat :=
  let n := Str.code c in
  if Str.isDigit c then Some (n - 48)
  else if Str.between 97 102 c then Some (n - 87)
  else if Str.between 65 70 c then Some (n - 55)
  else None.

Definition hex4 (a b c d : ascii) : option nat :=
  match hexVal a, hexVal b, hexVal c, hexVal d with
  | Some x, Some y, Some z, Some w => Some (((x * 16 + y) * 16 + z) * 16 + w)
  | _, _, _, _ => None
  end.

Definition consTo (c : ascii) (r : option (list ascii * list ascii))
  : option (list ascii * list ascii) :=
  match r with
  | Some (cs, rest) => Some (c :: cs, rest)
  | None => None
  end.

(** The characters of a string literal after its opening quote, up to and
    including the closing quote.  An escape [\uXXXX] above U+00FF denotes a
    code unit a [string] cannot hold and is not read: [None] means not in
    the fragment there, not only not JSON. *)
Fixpoint parseStringBody (s : list ascii) : option (list ascii * list ascii) :=
  match s with
  | [] => None
  | c :: s1 =>
      let n := Str.code c in
      if (n =? 34)%nat then Some ([], s1)
      else if (n =? 92)%nat then
        match s1 with
        | [] => None
        | e :: s2 =>
            let m := Str.code e in
            if (m =? 34)%nat || (m =? 92)%nat || (m =? 47)%nat
            then consTo e (parseStringBody s2)
            else if (m =? 98)%nat then consTo (ascii_of_nat 8) (parseStringBody s2)
            else if (m =? 102)%nat then consTo (ascii_of_nat 12) (parseStringBody s2)
            else if (m =? 110)%nat then consTo (ascii_of_nat 10) (parseStringBody s2)
            else if (m =? 114)%nat then consTo (ascii_of_nat 13) (parseStringBody s2)
            else if (m =? 116)%nat then consTo (ascii_of_nat 9) (parseStringBody s2)
            else if (m =? 117)%nat then
              match s2 with
              | h1 :: h2 :: h3 :: h4 :: s3 =>
                  match hex4 h1 h2 h3 h4 with
                  | Some u =>
                      if (u <? 256)%nat
                      then consTo (ascii_of_nat u) (parseStringBody s3)
                      else None
                  | None => None
                  end
              | _ => None
              end
            else None
        end
      else if (n <? 32)%nat then None
      else consTo c (parseStringBody s1)
  end.

Definition digitOf (c : ascii) : option (Decimal.uint -> Decimal.uint) :=
  let n := Str.code c in
  if (n =? 48)%nat then Some Decimal.D0
  else if (n =? 49)%nat then Some Decimal.D1
  else if (n =? 50)%nat then Some Decimal.D2
  else if (n =? 51)%nat then Some Decimal.D3
  else if (n =? 52)%nat then Some Decimal.D4
  else if (n =? 53)%nat then Some Decimal.D5
  else if (n =? 54)%nat then Some Decimal.D6
  else if (n =? 55)%nat then Some Decimal.D7
  else if (n =? 56)%nat then Some Decimal.D8
  else if (n =? 57)%nat then Some Decimal.D9
  else None.

(** The longest prefix of digits, and what follows it. *)
Fixpoint scanDigits (s : list ascii) : Decimal.uint * list ascii :=
  match s with
  | [] => (Decimal.Nil, [])
  | c :: s' =>
      match digitOf c with
      | Some d => let (u, rest) := scanDigits s' in (d u, rest)
      | None => (Decimal.Nil, s)
      end
  end.

Definition leadingZero (u : Decimal.uint) : bool :=
  match u with
  | Decimal.D0 Decimal.Nil => false
  | Decimal.D0 _ => true
  | _ => false
  end.

(** A fraction or an exponent would start here. *)
Definition continuesNumber (s : list ascii) : bool :=
  match s with
  | c :: _ =>
      let n := Str.code c in (n =? 46)%nat || (n =? 101)%nat || (n =? 69)%nat
  | [] => false
  end.

(** An integer numeral.  A numeral that goes on with a fraction or an
    exponent denotes a number that need not be an integer and is not
    read: [None] means not in the fragment here, not only not JSON. *)
Definition parseNumber (s : list ascii) : option (Z * list ascii) :=
  let (negative, s1) :=
    match s with
    | c :: s' => if (Str.code c =? 45)%nat then (true, s') else (false, s)
    | [] => (false, [])
    end in
  let (u, rest) := scanDigits s1 in
  match u with
  | Decimal.Nil => None
  | _ =>
      if leadingZero u || continuesNumber rest then None
      else Some (Z.of_int (if negative then Decimal.Neg u else Decimal.Pos u), rest)
  end.

Fixpoint stripPrefix (p s : list ascii) : option (list ascii) :=
  match p, s with
  | [], _ => Some s
  | a :: p', b :: s' => if Ascii.eqb a b then stripPrefix p' s' else None
  | _ :: _, [] => None
  end.

Definition keyword (w : string) (v : value) (s : list ascii)
  : option (value * list ascii) :=
  match stripPrefix (Str.chars w) s with
  | Some rest => Some (v, rest)
  | None => None
  end.

(** *** Objects as ordered property lists

    An ordinary object lists its array-index keys first, in ascending
    numeric order, then its other keys in creation order; defining a key
    that is present replaces its value and keeps its place. *)

Definition arrayIndex (k : string) : option N :=
  match scanDigits (Str.chars k) with
  | (Decimal.Nil, _) => None
  | (u, []) =>
      if leadingZero u then None
      else if (N.of_uint u <? 4294967295)%N then Some (N.of_uint u) else None
  | (_, _ :: _) => None
  end.

Definition hasMember (k : string) (m : list (string * value)) : bool :=
  existsb (fun kv => String.eqb (fst kv) k) m.

Fixpoint replaceMember (k : string) (v : value) (m : list (string * value))
  : list (string * value) :=
  match m with
  | [] => []
  | (k', v') :: m' =>
      if String.eqb k' k then (k', v) :: m' else (k', v') :: replaceMember k v m'
  end.

Fixpoint insertIndexed (i : N) (k : string) (v : value) (m : list (string * value))
  : list (string * value) :=
  match m with
  | [] => [(k, v)]
  | (k', v') :: m' =>
      match arrayIndex k' with
      | Some j => if (j <? i)%N then (k', v') :: insertIndexed i k v m' else (k, v) :: m
      | None => (k, v) :: m
      end
  end.

(** [CreateDataProperty(obj, k, v)] on the property list. *)
Definition defineMember (m : list (string * value)) (kv : string * value)
  : list (string * value) :=
  let (k, v) := kv in
  if hasMember k m then replaceMember k v m
  else match arrayIndex k with
       | Some i => insertIndexed i k v m
       | None => m ++ [(k, v)]
       end.

Definition makeObject (members : list (string * value)) : value :=
  JObject (fold_left defineMember members []).

Definition keyBefore (k1 k2 : string) : bool :=
  match arrayIndex k1, arrayIndex k2 with
  | Some i, Some j => (i <? j)%N
  | Some _, None => true
  | None, Some _ => false
  | None, None => negb (String.eqb k1 k2)
  end.

(** The keys of an object in the order the runtime keeps them: no key
    twice, array indices first and ascending. *)
Fixpoint canonicalKeys (ks : list string) : bool :=
  match ks with
  | [] => true
  | k :: ks' => forallb (keyBefore k) ks' && canonicalKeys ks'
  end.

(** The values of the model that are values of the runtime: every object
    in them lists its keys in the runtime's order. *)
Fixpoint wellFormed (v : value) : bool :=
  match v with
  | JArray l => forallb wellFormed l
  | JObject m =>
      canonicalKeys (map fst m) && forallb (fun kv => wellFormed (snd kv)) m
  | _ => true
  end.

(** *** The recursive-descent parser

    [fuel] bounds the number of nested calls; [parse] supplies more than
    any text needs. *)
Fixpoint parseValue (fuel : nat) (s : list ascii) {struct fuel}
  : option (value * list ascii) :=
  match fuel with
  | O => None
  | S fuel' =>
      match skipWs s with
      | [] => None
      | c :: s1 =>
          let n := Str.code c in
          if (n =? 91)%nat then                       (* [ *)
            match skipWs s1 with
            | c2 :: s2 =>
                if (Str.code c2 =? 93)%nat then Some (JArray [], s2)
                else match parseElements fuel' s1 with
                     | Some (l, rest) => Some (JArray l, rest)
                     | None => None
                     end
            | [] => None
            end
          else if (n =? 123)%nat then                 (* { *)
            match skipWs s1 with
            | c2 :: s2 =>
                if (Str.code c2 =? 125)%nat then Some (JObject [], s2)
                else match parseMembers fuel' s1 with
                     | Some (m, rest) => Some (makeObject m, rest)
                     | None => None
                     end
            | [] => None
            end
          else if (n =? 34)%nat then
            match parseStringBody s1 with
            | Some (cs, rest) => Some (JString (Str.ofChars cs), rest)
            | None => None
            end
          else if (n =? 116)%nat then keyword "true" (JBool true) (c :: s1)
          else if (n =? 102)%nat then keyword "false" (JBool false) (c :: s1)
          else if (n =? 110)%nat then keyword "null" JNull (c :: s1)
          else match parseNumber (c :: s1) with
               | Some (z, rest) => Some (JNumber z, rest)
               | None => None
               end
      end
  end

with parseElements (fuel : nat) (s : list ascii) {struct fuel}
  : option (list value * list ascii) :=
  match fuel with
  | O => None
  | S fuel' =>
      match parseValue fuel' s with
      | None => None
      | Some (v, s1) =>
          match skipWs s1 with
          | c :: s2 =>
              if (Str.code c =? 44)%nat then          (* , *)
                match parseElements fuel' s2 with
                | Some (l, rest) => Some (v :: l, rest)
                | None => None
                end
              else if (Str.code c =? 93)%nat then Some ([v], s2)
              else None
          | [] => None
          end
      end
  end

with parseMembers (fuel : nat) (s : list ascii) {struct fuel}
  : option (list (string * value) * list ascii) :=
  match fuel with
  | O => None
  | S fuel' =>
      match skipWs s with
      | q :: s1 =>
          if (Str.code q =? 34)%nat then
            match parseStringBody s1 with
            | None => None
            | Some (k, s2) =>
                match skipWs s2 with
                | c :: s3 =>
                    if (Str.code c =? 58)%nat then    (* : *)
                      match parseValue fuel' s3 with
                      | None => None
                      | Some (v, s4) =>
                          match skipWs s4 with
                          | d :: s5 =>
                              if (Str.code d =? 44)%nat then
                                match parseMembers fuel' s5 with
                                | Some (m, rest) => Some ((Str.ofChars k, v) :: m, rest)
                                | None => None
                                end
                              else if (Str.code d =? 125)%nat
                              then Some ([(Str.ofChars k, v)], s5)
                              else None
                          | [] => None
                          end
                      end
                    else None
                | [] => None
                end
            end
          else None
      | [] => None
      end
  end.

(** *** Notions used to state facts about texts *)

Definition allSpaces (l : list ascii) : Prop := Forall (fun c => isJsonSpace c = true) l.

(** A text that starts with something other than white space. *)
Definition solid (s : list ascii) : Prop :=
  match s with
  | c :: _ => isJsonSpace c = false
  | [] => True
  end.

Definition isDelimiter (c : ascii) : bool :=
  isJsonSpace c || (Str.code c =? 44)%nat || (Str.code c =? 93)%nat
  || (Str.code c =? 125)%nat.

(** What may follow a serialised value: nothing, white space, a comma or a
    closing bracket. *)
Definition delimited (s : list ascii) : Prop :=
  match s with
  | c :: _ => isDelimiter c = true
  | [] => True
  end.

(** A bound on the nesting of calls the parser makes on the text of [v]. *)
Fixpoint size (v : value) : nat :=
  match v with
  | JArray l => S (list_sum (map (fun e => S (size e)) l))
  | JObject m => S (list_sum (map (fun kv => S (size (snd kv))) m))
  | _ => 1
  end.

(** The white space [serialize] puts after an opening bracket and after a
    comma, before a closing bracket, and after a colon. *)
Definition opening (gap indent : list ascii) : list ascii :=
  if isEmpty gap then [] else newline :: indent.

Definition closing (gap stepback : list ascii) : list ascii :=
  if isEmpty gap then [] else newline :: stepback.

Definition colonGap (gap : list ascii) : list ascii :=
  if isEmpty gap then [] else [space].

Definition member (gap indent : list ascii) (kv : string * value) : list ascii :=
  quote (fst kv) ++ ":"%char :: colonGap gap ++ serialize gap indent (snd kv).

(** The first character of a numeral: a digit or the minus sign. *)
Definition startsNumeral (c : ascii) : Prop :=
  digitOf c <> None \/ (Str.code c =? 45)%nat = true.

(** The parser reads the text of [e] back, whatever follows it. *)
Definition readsBack (gap indent : list ascii) (e : value) : Prop :=
  forall fuel rest,
    (size e <= fuel)%nat -> delimited rest ->
    parseValue fuel (serialize gap indent e ++ rest) = Some (e, rest).

(** Every key of [m] comes before [k] in the runtime's order. *)
Definition allBefore (k : string) (m : list (string * value)) : Prop :=
  Forall (fun kv => keyBefore (fst kv) k = true) m.

Definition wellFormedMembers (m : list (string * value)) : Prop :=
  Forall (fun kv => wellFormed (snd kv) = true) m.

Definition wellFormedAll (l : list value) : Prop :=
  Forall (fun v => wellFormed v = true) l.

(** [JSON.parse(text)]: the value, or a thrown [SyntaxError]. *)
Definition parse (text : string) : Result value :=
  let s := Str.chars text in
  match parseValue (S (List.length s)) s with
  | Some (v, rest) =>
      match skipWs rest with
      | [] => Ok v
      | _ :: _ => Thrown (SyntaxError "Unexpected token in JSON")
      end
  | None => Thrown (SyntaxError "Unexpected token in JSON")
  end.

End JSON.

(** ** The world the module runs in *)

(** What the environment has in store for a promise-returning [fs] call:
    it fulfils, it rejects before touching the file, or (for a write) it
    rejects after the file was opened for writing, which truncates it, and
    [written] characters reached it. *)
Inductive Outcome : Type :=
| Fulfils
| Rejects
| RejectsAfter (written : nat).

Inductive LogRecord : Type :=
| ConsoleError (message : string) (error : Error)
| ConsoleLog (message : string) (history : list JSON.value).

(** [historyFile] is the content of [HISTORY_FILE], [None] when the path
    does not exist; it is the only path the module reads or writes. *)
Record World : Type := mkWorld {
  historyFile : option string;
  pending : list Outcome;
  console : list LogRecord;
  clock : Z
}.

Definition IO (A : Type) : Type := World -> Result A * World.

Definition ret {A : Type} (a : A) : IO A := fun w => (Ok a, w).

Definition throw {A : Type} (e : Error) : IO A := fun w => (Thrown e, w).

Definition bind {A B : Type} (c : IO A) (f : A -> IO B) : IO B :=
  fun w =>
    match c w with
    | (Ok a, w') => f a w'
    | (Thrown e, w') => (Thrown e, w')
    end.

(** [try { body } catch (error) { handler }] *)
Definition tryCatch {A : Type} (body : IO A) (handler : Error -> IO A) : IO A :=
  fun w =>
    match body w with
    | (Ok a, w') => (Ok a, w')
    | (Thrown e, w') => handler e w'
    end.

Definition liftResult {A : Type} (r : Result A) : IO A := fun w => (r, w).

Declare Scope io_scope.
Delimit Scope io_scope with io.
Notation "x <- c1 ;; c2" := (bind c1 (fun x => c2))
  (at level 61, c1 at next level, right associativity) : io_scope.
Notation "c1 ;; c2" := (bind c1 (fun _ => c2))
  (at level 61, right associativity) : io_scope.

Definition result (A : Type) (c : IO A) (w : World) : Result A := fst (c w).
Definition after (A : Type) (c : IO A) (w : World) : World := snd (c w).
Arguments result {A} c w.
Arguments after {A} c w.

Definition settle : IO Outcome :=
  fun w =>
    match pending w with
    | [] => (Ok Fulfils, w)
    | o :: rest => (Ok o, mkWorld (historyFile w) rest (console w) (clock w))
    end.

Definition putFile (content : string) : IO unit :=
  fun w => (Ok tt, mkWorld (Some content) (pending w) (console w) (clock w)).

Definition prefix (n : nat) (data : string) : string :=
  Str.ofChars (firstn n (Str.chars data)).

(** [existsSync(HISTORY_FILE)] *)
Definition existsSync : IO bool :=
  fun w => (Ok (match historyFile w with Some _ => true | None => false end), w).

(** [fs.readFile(HISTORY_FILE, "utf-8")] *)
Definition readFile : IO string :=
  (o <- settle ;;
   match o with
   | Fulfils =>
       fun w =>
         match historyFile w with
         | Some data => (Ok data, w)
         | None => (Thrown (SystemError "ENOENT"), w)
         end
   | _ => throw (SystemError "EACCES")
   end)%io.

(** [fs.mkdir(dir, { recursive: true })] *)
Definition mkdir : IO unit :=
  (o <- settle ;;
   match o with
   | Fulfils => ret tt
   | _ => throw (SystemError "EACCES")
   end)%io.

(** [fs.writeFile(HISTORY_FILE, data, "utf-8")]: open for writing
    (create or truncate), write, close. *)
Definition writeFile (data : string) : IO unit :=
  (o <- settle ;;
   match o with
   | Fulfils => putFile data
   | Rejects => throw (SystemError "EACCES")
   | RejectsAfter n => putFile (prefix n data) ;; throw (SystemError "ENOSPC")
   end)%io.

(** [console.error(message, error)] *)
Definition console_error (message : string) (error : Error) : IO unit :=
  fun w =>
    (Ok tt, mkWorld (historyFile w) (pending w)
                    (console w ++ [ConsoleError message error]) (clock w)).

(** [console.log(message, history)] *)
Definition console_log (message : string) (history : list JSON.value) : IO unit :=
  fun w =>
    (Ok tt, mkWorld (historyFile w) (pending w)
                    (console w ++ [ConsoleLog message history]) (clock w)).

(** [Date.now()] *)
Definition Date_now : IO Z := fun w => (Ok (clock w), w).

(** [arr.slice(start)]: a negative [start] counts from the end. *)
Definition Array_slice {A : Type} (arr : list A) (start : Z) : list A :=
  let len := Z.of_nat (List.length arr) in
  let k := if (start <? 0)%Z then Z.max (len + start) 0 else Z.min start len in
  skipn (Z.to_nat k) arr.

(** [arr[arr.length - 1]], [undefined] on the empty array. *)
Definition lastElement {A : Type} (arr : list A) : option A :=
  match arr with
  | [] => None
  | _ :: _ => nth_error arr (List.length arr - 1)
  end.

(** [ToBoolean] *)
Definition truthy (v : option JSON.value) : bool :=
  match v with
  | None => false
  | Some JSON.JNull => false
  | Some (JSON.JBool b) => b
  | Some (JSON.JNumber n) => negb (n =? 0)%Z
  | Some (JSON.JString s) => negb (String.eqb s EmptyString)
  | Some (JSON.JArray _) => true
  | Some (JSON.JObject _) => true
  end.

Fixpoint lookup (k : string) (m : list (string * JSON.value)) : option JSON.value :=
  match m with
  | [] => None
  | (k', v) :: m' => if String.eqb k' k then Some v else lookup k m'
  end.

(** [v.command] on a value that is neither [null] nor [undefined]. *)
Definition getCommand (v : option JSON.value) : option JSON.value :=
  match v with
  | Some (JSON.JObject m) => lookup "command" m
  | _ => None
  end.

(** [x === str] for a string [str] *)
Definition strictEqualsString (x : option JSON.value) (str : string) : bool :=
  match x with
  | Some (JSON.JString s) => String.eqb s str
  | _ => false
  end.

(** ** The module [command-history.ts] *)

Module History.

Import JSON.

Definition DEFAULT_HISTORY_SIZE : Z := 1000.

Definition SENSITIVE_PATTERNS : list RegExp.regex :=
  [ RegExp.tokenPattern;
    RegExp.wordPatternI "password";
    RegExp.wordPatternI "secret";
    RegExp.wordPatternI "token";
    RegExp.wordPatternI "key" ].

Record HistoryConfig : Type := mkConfig {
  maxSize : Z;
  saveHistory : bool;
  sensitivePatterns : list string
}.

Record HistoryEntry : Type := mkEntry {
  command : string;
  timestamp : Z
}.

(** The object [{ command, timestamp }]. *)
Definition entryValue (e : HistoryEntry) : value :=
  JObject [("command", JString (command e)); ("timestamp", JNumber (timestamp e))].

Definition DEFAULT_HISTORY_CONFIG : HistoryConfig :=
  mkConfig DEFAULT_HISTORY_SIZE true [].

Definition loadCommandHistory : IO (list value) :=
  tryCatch
    (present <- existsSync ;;
     if negb present then ret []
     else
       data <- readFile ;;
       history <- liftResult (JSON.parse data) ;;
       ret (match history with JArray elements => elements | _ => [] end))%io
    (fun error =>
       console_error "Failed to load command history:" error ;;
       ret [])%io.

Definition saveCommandHistory (history : list value) (config : HistoryConfig) : IO unit :=
  tryCatch
    (mkdir ;;
     let trimmedHistory := Array_slice history (- maxSize config) in
     writeFile (JSON.stringify (JArray trimmedHistory) 2))%io
    (fun error => console_error "Failed to save command history:" error).

(** One turn of the loop over [additionalPatterns]: [Ok true] when the
    body returned [true], [Ok false] when it ran through or its error was
    caught. *)
Definition testAdditional {engine : RegExpEngine} (command patternStr : string)
  : Result bool :=
  tryCatchResult
    (match RegExp_new patternStr with
     | Ok pattern => Ok (pattern command)
     | Thrown e => Thrown e
     end)
    (fun _ => Ok false).

Fixpoint checkAdditional {engine : RegExpEngine} (command : string)
         (additionalPatterns : list string) : Result bool :=
  match additionalPatterns with
  | [] => Ok false
  | patternStr :: rest =>
      match testAdditional command patternStr with
      | Ok true => Ok true
      | Ok false => checkAdditional command rest
      | Thrown e => Thrown e
      end
  end.

Definition isSensitiveCommand {engine : RegExpEngine} (command : string)
           (additionalPatterns : list string) : Result bool :=
  if existsb (fun pattern => RegExp.test pattern command) SENSITIVE_PATTERNS
  then Ok true
  else checkAdditional command additionalPatterns.

Definition addToHistory {engine : RegExpEngine} (command : string)
           (history : list value) (config : HistoryConfig) : IO (list value) :=
  if negb (saveHistory config) || String.eqb (Str.trim command) EmptyString
  then ret history
  else
    (sensitive <- liftResult (isSensitiveCommand command (sensitivePatterns config)) ;;
     if (sensitive : bool) then ret history
     else
       let lastEntry := lastElement history in
       if truthy lastEntry && strictEqualsString (getCommand lastEntry) command
       then ret history
       else
         now <- Date_now ;;
         let newEntry := entryValue (mkEntry command now) in
         console_log "Adding to history:" history ;;
         let newHistory := history ++ [newEntry] in
         saveCommandHistory newHistory config ;;
         ret newHistory)%io.

Definition clearCommandHistory : IO unit :=
  tryCatch
    (present <- existsSync ;;
     if (present : bool) then writeFile (JSON.stringify (JArray []) 0) else ret tt)%io
    (fun error => console_error "Failed to clear command history:" error).

End History.

(** ** A small engine for running examples

    It compiles the sources made of ordinary pattern characters only (the
    pattern then matches where the source occurs) and rejects every source
    with a syntax character, as the runtime does for an unterminated
    character class (an opening square bracket that is never closed). *)

Definition isSyntaxCharacter (c : ascii) : bool :=
  existsb (Ascii.eqb c) (Str.chars "^$\.*+?()[]{}|").

Fixpoint literal (w : list ascii) : RegExp.regex :=
  match w with
  | [] => RegExp.Eps
  | ch :: w' => RegExp.Cat (RegExp.Chr (Ascii.eqb ch)) (literal w')
  end.

Definition literalEngine : RegExpEngine :=
  {| RegExp_new := fun source =>
       if existsb isSyntaxCharacter (Str.chars source)
       then Thrown (SyntaxError "Invalid regular expression")
       else Ok (RegExp.test (literal (Str.chars source))) |}.

(** ** The redaction rules in the words of the specification *)

Module Spec.

(** The character just before a position, if there is one. *)
Definition charBefore (before : list ascii) : option ascii :=
  last (map Some before) None.

(** A position is at a word boundary when exactly one of its two
    neighbours is a word character. *)
Definition atWordBoundary (before after : list ascii) : Prop :=
  RegExp.wordAt (charBefore before) <> RegExp.wordAt (hd_error after).

Definition isTokenChar (c : ascii) : bool :=
  Str.isAlnum c || Ascii.eqb c "-" || Ascii.eqb c "_".

(** "a token-like substring of 20 or more alphanumeric/hyphen/underscore
    characters at word boundaries" *)
Definition tokenLike (cmd : string) : Prop :=
  exists pre mid post,
    Str.chars cmd = pre ++ mid ++ post
    /\ (20 <= List.length mid)%nat
    /\ Forall (fun c => isTokenChar c = true) mid
    /\ atWordBoundary pre (mid ++ post)
    /\ atWordBoundary (pre ++ mid) post.

(** "a case-insensitive whole-word occurrence of [w]": the letters of [w]
    in either case, with no word character next to them. *)
Definition wholeWord (w cmd : string) : Prop :=
  exists pre mid post,
    Str.chars cmd = pre ++ mid ++ post
    /\ map Str.toLower mid = map Str.toLower (Str.chars w)
    /\ RegExp.wordAt (charBefore pre) = false
    /\ RegExp.wordAt (hd_error post) = false.

Definition builtinSensitive (cmd : string) : Prop :=
  tokenLike cmd \/ wholeWord "password" cmd \/ wholeWord "secret" cmd
  \/ wholeWord "token" cmd \/ wholeWord "key" cmd.

(** "some pattern of [P] that compiles as a regular expression matches" *)
Definition callerSensitive {engine : RegExpEngine} (cmd : string) (P : list string)
  : Prop :=
  exists source pattern,
    In source P /\ RegExp_new source = Ok pattern /\ pattern cmd = true.

(** The source [source] compiles. *)
Definition compiles {engine : RegExpEngine} (source : string) : bool :=
  match RegExp_new source with
  | Ok _ => true
  | Thrown _ => false
  end.

(** Exhaustive checks over the code units. *)
Definition allAscii : list ascii := map ascii_of_nat (seq 0 256).

Definition isLetter (c : ascii) : bool := Str.isUpper c || Str.isLower c.

(** A non-empty word of letters. *)
Definition letters (w : list ascii) : Prop :=
  w <> [] /\ Forall (fun ch => isLetter ch = true) w.

Definition caseCheck (ch c : ascii) : bool :=
  implb (isLetter ch)
        (Bool.eqb (Ascii.eqb (Str.toUpper c) (Str.toUpper ch))
                  (Ascii.eqb (Str.toLower c) (Str.toLower ch))
         && implb (Ascii.eqb (Str.toUpper c) (Str.toUpper ch)) (RegExp.isWordChar c)).

End Spec.

(** ** Notions used to state the properties of the store *)

Module Claims.

Import JSON History.

(** The environment fulfils the next [n] calls of [fs]. *)
Definition fulfilsNext (n : nat) (w : World) : Prop :=
  Forall (fun o => o = Fulfils) (firstn n (pending w)).

(** The persisted sequence: the array the backing file holds, if it holds
    the text of one. *)
Definition persisted (w : World) : option (list value) :=
  match historyFile w with
  | Some data =>
      match JSON.parse data with
      | Ok (JArray l) => Some l
      | _ => None
      end
  | None => None
  end.

(** The last [n] entries of [hist], all of [hist] when it has fewer. *)
Definition lastEntries (n : Z) (hist : list value) : list value :=
  skipn (List.length hist - Z.to_nat n) hist.

(** The last entry of [hist] is an entry for [command]. *)
Definition lastCommandIs (command : string) (hist : list value) : Prop :=
  getCommand (lastElement hist) = Some (JString command).

(** The part of a document that reached the file. *)
Definition isPrefixOf (part whole : string) : Prop :=
  exists n, part = prefix n whole.

(** Backing-file states from which no history can be read. *)
Inductive Unusable (w : World) : Prop :=
| FileAbsent : historyFile w = None -> Unusable w
| FileUnreadable :
    forall o rest, pending w = o :: rest -> o <> Fulfils -> Unusable w
| NotJson :
    forall data e,
      historyFile w = Some data -> JSON.parse data = Thrown e -> Unusable w
| NotAnArray :
    forall data v,
      historyFile w = Some data -> JSON.parse data = Ok v ->
      (forall l, v <> JArray l) -> Unusable w.

(** The document [saveCommandHistory] writes. *)
Definition document (hist : list value) (config : HistoryConfig) : string :=
  JSON.stringify (JArray (Array_slice hist (- maxSize config))) 2.

(** Atomicity of a save as the specification words it: afterwards the file
    holds its previous complete contents or the complete new contents. *)
Definition atomicSave (hist : list value) (config : HistoryConfig) (w : World) : Prop :=
  let w' := after (saveCommandHistory hist config) w in
  historyFile w' = historyFile w \/ historyFile w' = Some (document hist config).

(** What the specification says of [clear], at a given world. *)
Definition clearResets (w : World) : Prop :=
  let w' := after clearCommandHistory w in
  result clearCommandHistory w = Ok tt
  /\ (historyFile w <> None -> historyFile w' = Some (JSON.stringify (JArray []) 0))
  /\ (historyFile w = None -> w' = w)
  /\ result loadCommandHistory w' = Ok [].

End Claims.

(** ** Concrete inputs *)

Module Examples.

Import JSON History.

Definition entry (command : string) (timestamp : Z) : value :=
  entryValue (mkEntry command timestamp).

Definition threeEntries : list value :=
  [entry "git status" 1700000000000; entry "ls" 1700000000001;
   entry "make test" 1700000000002].

Definition keepTwo : HistoryConfig := mkConfig 2 true [].

(** No backing file yet, an environment that fulfils every call. *)
Definition freshWorld : World := mkWorld None [] [] 1700000000003.

(** A backing file with one entry. *)
Definition oneEntryFile : string := JSON.stringify (JArray [entry "ls" 1700000000001]) 2.

Definition storedWorld : World := mkWorld (Some oneEntryFile) [] [] 1700000000003.

(** The same file, in an environment that rejects the next call before it
    touches the file (a read-only file, say). *)
Definition rejectingWorld : World :=
  mkWorld (Some oneEntryFile) [Rejects] [] 1700000000003.

(** The directory creation is fulfilled; the write fails after the file
    was opened and five characters were written (a full disk, say). *)
Definition fullDiskWorld : World :=
  mkWorld (Some oneEntryFile) [Fulfils; RejectsAfter 5] [] 1700000000003.

Definition notJsonWorld : World := mkWorld (Some "not json") [] [] 0.

Definition objectWorld : World := mkWorld (Some "{}") [] [] 0.

(** An array none of whose elements is a history entry. *)
Definition mixedArrayWorld : World := mkWorld (Some "[1, null, [true], {}]") [] [] 0.

End Examples.

(** ** Notions used to state further properties of the store *)

Module Session.

Import JSON History.

(** The command of the last entry, when the last element has one. *)
Definition lastCommand (hist : list value) : option string :=
  match getCommand (lastElement hist) with
  | Some (JString s) => Some s
  | _ => None
  end.

(** A command made of white space only (or empty). *)
Definition blank (command : string) : Prop :=
  Forall (fun c => Str.isTrimSpace c = true) (Str.chars command).

(** The answer of the filter. *)
Definition classified {engine : RegExpEngine} (command : string) (P : list string)
  : bool :=
  match isSensitiveCommand command P with
  | Ok b => b
  | Thrown _ => false
  end.

(** Whether [command] passes the three tests of [addToHistory] when the
    last stored command is [last]. *)
Definition storable {engine : RegExpEngine} (config : HistoryConfig)
           (last : option string) (command : string) : bool :=
  saveHistory config
  && negb (String.eqb (Str.trim command) EmptyString)
  && negb (classified command (sensitivePatterns config))
  && negb (match last with
           | Some c => String.eqb c command
           | None => false
           end).

(** The commands of [commands] that get stored, in order, when the last
    stored command before them is [last]. *)
Fixpoint stored {engine : RegExpEngine} (config : HistoryConfig)
         (last : option string) (commands : list string) : list string :=
  match commands with
  | [] => []
  | c :: rest =>
      if storable config last c
      then c :: stored config (Some c) rest
      else stored config last rest
  end.

(** [for (const c of commands) history = await addToHistory(c, history, config)] *)
Fixpoint addAll {engine : RegExpEngine} (commands : list string)
         (history : list value) (config : HistoryConfig) : IO (list value) :=
  match commands with
  | [] => ret history
  | c :: rest =>
      (h <- addToHistory c history config ;; addAll rest h config)%io
  end.

(** The world after [console.log("Adding to history:", hist)]. *)
Definition logged (hist : list value) (w : World) : World :=
  mkWorld (historyFile w) (pending w)
          (console w ++ [ConsoleLog "Adding to history:" hist]) (clock w).

(** The entry [addToHistory] builds for [command] in the world [w]. *)
Definition newEntry (command : string) (w : World) : value :=
  entryValue (mkEntry command (clock w)).

(** A new entry is due: saving is on, the command is not blank, the
    filter lets it pass and it is not the command of the last entry. *)
Definition due {engine : RegExpEngine} (config : HistoryConfig)
           (hist : list value) (command : string) : Prop :=
  saveHistory config = true
  /\ Str.trim command <> EmptyString
  /\ isSensitiveCommand command (sensitivePatterns config) = Ok false
  /\ ~ Claims.lastCommandIs command hist.

(** The environment rejects a save before anything is written: the
    directory creation is not fulfilled, or it is and the write is rejected
    before the file is opened. *)
Definition rejectsSave (w : World) : Prop :=
  (exists o rest, pending w = o :: rest /\ o <> Fulfils)
  \/ (exists rest, pending w = Fulfils :: Rejects :: rest).

Definition sameLower (a b : ascii) : Prop := Str.toLower a = Str.toLower b.

(** Two commands that differ in the case of ASCII letters only. *)
Definition sameUpToCase (c1 c2 : string) : Prop :=
  Forall2 (fun a b => Str.toLower a = Str.toLower b) (Str.chars c1) (Str.chars c2).

(** Exhaustive check: the case of an ASCII letter does not matter to the
    classes the built-in patterns use. *)
Definition caseBlindCheck (a b : ascii) : bool :=
  implb (Ascii.eqb (Str.toLower a) (Str.toLower b))
        (Bool.eqb (Spec.isTokenChar a) (Spec.isTokenChar b)
         && Bool.eqb (RegExp.isWordChar a) (RegExp.isWordChar b)).

Definition wordIsTokenCheck (c : ascii) : bool :=
  implb (RegExp.isWordChar c) (Spec.isTokenChar c).

(** Each value of [added] is an entry for the command at its place in
    [commands], with some time stamp. *)
Definition entriesFor (added : list value) (commands : list string) : Prop :=
  Forall2 (fun v c => exists t, v = entryValue (mkEntry c t)) added commands.

(** [command] has [n] word characters in a row somewhere. *)
Definition hasWordRun (n : nat) (command : string) : Prop :=
  exists pre mid post,
    Str.chars command = pre ++ mid ++ post
    /\ (n <= List.length mid)%nat
    /\ Forall (fun c => RegExp.isWordChar c = true) mid.

End Session.

(** ** Further concrete inputs *)

Module Inputs.

Import JSON History Examples.

(** The file exists; the environment interrupts the next write after one
    character. *)
Definition interruptingWorld : World :=
  mkWorld (Some oneEntryFile) [RejectsAfter 1] [] 1700000000003.

Definition fourCommands : list string :=
  ["git status"; "git status"; "export SECRET=xyz"; "ls"].

Definition keepAll : HistoryConfig := mkConfig 0 true [].

Definition dropOne : HistoryConfig := mkConfig (-1) true [].

Definition disabled : HistoryConfig := mkConfig 1000 false [].

Definition longName : string := "sha256 0123456789abcdef0123456789abcdef".

End Inputs.

(** ** Loading under any runtime

    [loadCommandHistory] hands the text it read to two built-ins,
    [JSON.parse] and [Array.isArray], and looks at nothing else of the
    value it gets.  [JsonRuntime] is that interface over whatever values a
    runtime has: numbers with fractions or exponents, strings of any code
    units.  The function below is lines 38-53 once more, over the
    interface; what is proved of it holds of every parser, the runtime's
    own included, and does not rest on the fragment of JSON that
    [JSON.parse] above reads (integer numerals, code units below 256). *)

Module AnyRuntime.

Class JsonRuntime : Type := {
  Value : Type;
  (** [JSON.parse(data)] *)
  JSON_parse : string -> Result Value;
  (** [Array.isArray(history)] *)
  Array_isArray : Value -> bool;
  (** the array literal [[]] *)
  emptyArray : Value
}.

Definition loadCommandHistory {rt : JsonRuntime} : IO Value :=
  tryCatch
    (present <- existsSync ;;
     if negb present then ret emptyArray
     else
       data <- readFile ;;
       history <- liftResult (JSON_parse data) ;;
       ret (if Array_isArray history then history else emptyArray))%io
    (fun error =>
       console_error "Failed to load command history:" error ;;
       ret emptyArray)%io.

(** The runtime of this development: the values and the parser of
    [Module JSON]. *)
Definition modelled : JsonRuntime := {|
  Value := JSON.value;
  JSON_parse := JSON.parse;
  Array_isArray := fun v => match v with JSON.JArray _ => true | _ => false end;
  emptyArray := JSON.JArray []
|}.

End AnyRuntime.

(** ** A reader of the whole JSON grammar

    A second runtime, for examples: it reads every JSON text and keeps
    each numeral and each string literal as it is written, so that texts
    outside the fragment of [JSON.parse] above can be loaded too. *)

Module Lexical.

Import JSON.

Unset Elimination Schemes.
Inductive tree : Type :=
| TNull
| TBool (b : bool)
| TNumber (numeral : string)
| TString (literal : string)
| TArray (elements : list tree)
| TObject (members : list (string * tree)).
Set Elimination Schemes.

(** A string literal after its opening quote, up to and including the
    closing quote; the characters are kept as written, escapes included. *)
Fixpoint scanString (s : list ascii) : option (list ascii * list ascii) :=
  match s with
  | [] => None
  | c :: s1 =>
      let n := Str.code c in
      if (n =? 34)%nat then Some ([], s1)
      else if (n =? 92)%nat then
        match s1 with
        | [] => None
        | e :: s2 =>
            let m := Str.code e in
            if (m =? 34)%nat || (m =? 92)%nat || (m =? 47)%nat || (m =? 98)%nat
               || (m =? 102)%nat || (m =? 110)%nat || (m =? 114)%nat || (m =? 116)%nat
            then consTo c (consTo e (scanString s2))
            else if (m =? 117)%nat then
              match s2 with
              | h1 :: h2 :: h3 :: h4 :: s3 =>
                  match hex4 h1 h2 h3 h4 with
                  | Some _ =>
                      consTo c (consTo e (consTo h1 (consTo h2 (consTo h3 (consTo h4
                        (scanString s3))))))
                  | None => None
                  end
              | _ => None
              end
            else None
        end
      else if (n <? 32)%nat then None
      else consTo c (scanString s1)
  end.

(** The longest prefix of digits, as characters. *)
Fixpoint scanDigitChars (s : list ascii) : list ascii * list ascii :=
  match s with
  | c :: s' =>
      if Str.isDigit c then let (ds, rest) := scanDigitChars s' in (c :: ds, rest)
      else ([], s)
  | [] => ([], [])
  end.

(** [int]: a zero, or digits that do not start with a zero. *)
Definition scanInt (s : list ascii) : option (list ascii * list ascii) :=
  match scanDigitChars s with
  | ([], _) => None
  | ([d], rest) => Some ([d], rest)
  | (d :: ds, rest) => if (Str.code d =? 48)%nat then None else Some (d :: ds, rest)
  end.

(** [frac]: nothing, or a point and at least one digit. *)
Definition scanFrac (s : list ascii) : option (list ascii * list ascii) :=
  match s with
  | c :: s1 =>
      if (Str.code c =? 46)%nat then
        match scanDigitChars s1 with
        | ([], _) => None
        | (ds, rest) => Some (c :: ds, rest)
        end
      else Some ([], s)
  | [] => Some ([], [])
  end.

(** [exp]: nothing, or [e] or [E], an optional sign and at least one
    digit. *)
Definition scanExp (s : list ascii) : option (list ascii * list ascii) :=
  match s with
  | c :: s1 =>
      if (Str.code c =? 101)%nat || (Str.code c =? 69)%nat then
        let (sign, s2) :=
          match s1 with
          | g :: s' =>
              if (Str.code g =? 43)%nat || (Str.code g =? 45)%nat
              then ([g], s') else ([], s1)
          | [] => ([], [])
          end in
        match scanDigitChars s2 with
        | ([], _) => None
        | (ds, rest) => Some (c :: sign ++ ds, rest)
        end
      else Some ([], s)
  | [] => Some ([], [])
  end.

(** [number]: an optional minus, [int], [frac], [exp]. *)
Definition scanNumber (s : list ascii) : option (list ascii * list ascii) :=
  let (minus, s1) :=
    match s with
    | c :: s' => if (Str.code c =? 45)%nat then ([c], s') else ([], s)
    | [] => ([], [])
    end in
  match scanInt s1 with
  | None => None
  | Some (int, s2) =>
      match scanFrac s2 with
      | None => None
      | Some (frac, s3) =>
          match scanExp s3 with
          | None => None
          | Some (exp, rest) => Some (minus ++ int ++ frac ++ exp, rest)
          end
      end
  end.

Definition literally (w : string) (t : tree) (s : list ascii)
  : option (tree * list ascii) :=
  match stripPrefix (Str.chars w) s with
  | Some rest => Some (t, rest)
  | None => None
  end.

Fixpoint readValue (fuel : nat) (s : list ascii) {struct fuel}
  : option (tree * list ascii) :=
  match fuel with
  | O => None
  | S fuel' =>
      match skipWs s with
      | [] => None
      | c :: s1 =>
          let n := Str.code c in
          if (n =? 91)%nat then                       (* [ *)
            match skipWs s1 with
            | c2 :: s2 =>
                if (Str.code c2 =? 93)%nat then Some (TArray [], s2)
                else match readElements fuel' s1 with
                     | Some (l, rest) => Some (TArray l, rest)
                     | None => None
                     end
            | [] => None
            end
          else if (n =? 123)%nat then                 (* { *)
            match skipWs s1 with
            | c2 :: s2 =>
                if (Str.code c2 =? 125)%nat then Some (TObject [], s2)
                else match readMembers fuel' s1 with
                     | Some (m, rest) => Some (TObject m, rest)
                     | None => None
                     end
            | [] => None
            end
          else if (n =? 34)%nat then
            match scanString s1 with
            | Some (cs, rest) => Some (TString (Str.ofChars cs), rest)
            | None => None
            end
          else if (n =? 116)%nat then literally "true" (TBool true) (c :: s1)
          else if (n =? 102)%nat then literally "false" (TBool false) (c :: s1)
          else if (n =? 110)%nat then literally "null" TNull (c :: s1)
          else match scanNumber (c :: s1) with
               | Some (cs, rest) => Some (TNumber (Str.ofChars cs), rest)
               | None => None
               end
      end
  end

with readElements (fuel : nat) (s : list ascii) {struct fuel}
  : option (list tree * list ascii) :=
  match fuel with
  | O => None
  | S fuel' =>
      match readValue fuel' s with
      | None => None
      | Some (v, s1) =>
          match skipWs s1 with
          | c :: s2 =>
              if (Str.code c =? 44)%nat then          (* , *)
                match readElements fuel' s2 with
                | Some (l, rest) => Some (v :: l, rest)
                | None => None
                end
              else if (Str.code c =? 93)%nat then Some ([v], s2)
              else None
          | [] => None
          end
      end
  end

with readMembers (fuel : nat) (s : list ascii) {struct fuel}
  : option (list (string * tree) * list ascii) :=
  match fuel with
  | O => None
  | S fuel' =>
      match skipWs s with
      | q :: s1 =>
          if (Str.code q =? 34)%nat then
            match scanString s1 with
            | None => None
            | Some (k, s2) =>
                match skipWs s2 with
                | c :: s3 =>
                    if (Str.code c =? 58)%nat then    (* : *)
                      match readValue fuel' s3 with
                      | None => None
                      | Some (v, s4) =>
                          match skipWs s4 with
                          | d :: s5 =>
                              if (Str.code d =? 44)%nat then
                                match readMembers fuel' s5 with
                                | Some (m, rest) => Some ((Str.ofChars k, v) :: m, rest)
                                | None => None
                                end
                              else if (Str.code d =? 125)%nat
                              then Some ([(Str.ofChars k, v)], s5)
                              else None
                          | [] => None
                          end
                      end
                    else None
                | [] => None
                end
            end
          else None
      | [] => None
      end
  end.

Definition read (text : string) : Result tree :=
  let s := Str.chars text in
  match readValue (S (List.length s)) s with
  | Some (t, rest) =>
      match skipWs rest with
      | [] => Ok t
      | _ :: _ => Thrown (SyntaxError "Unexpected token in JSON")
      end
  | None => Thrown (SyntaxError "Unexpected token in JSON")
  end.

Definition runtime : AnyRuntime.JsonRuntime := {|
  AnyRuntime.Value := tree;
  AnyRuntime.JSON_parse := read;
  AnyRuntime.Array_isArray := fun t => match t with TArray _ => true | _ => false end;
  AnyRuntime.emptyArray := TArray []
|}.

End Lexical.

(** ** Inputs for the bound on the persisted length *)

Module Bound.

Import JSON History Claims Examples.

(** What the specification says of [save], at a given save: when it
    completes without I/O error the file holds the last [maxSize] entries,
    and after any save, failed or not, the persisted sequence is no longer
    than [maxSize]. *)
Definition boundedAfterSave (hist : list value) (config : HistoryConfig) (w : World)
  : Prop :=
  let w' := after (saveCommandHistory hist config) w in
  (0 < maxSize config)%Z ->
  (fulfilsNext 2 w -> persisted w' = Some (lastEntries (maxSize config) hist))
  /\ (forall kept,
        persisted w' = Some kept ->
        (Z.of_nat (List.length kept) <= maxSize config)%Z).

Definition keepOne : HistoryConfig := mkConfig 1 true [].

Definition threeEntryFile : string := JSON.stringify (JArray threeEntries) 2.

(** A backing file with three entries, written under a larger [maxSize];
    the directory creation is fulfilled and the write is rejected before
    it touches the file. *)
Definition readOnlyWorld : World :=
  mkWorld (Some threeEntryFile) [Fulfils; Rejects] [] 1700000000003.

End Bound.

(** ** Texts outside the fragment of [JSON.parse] *)

Module Texts.

Import JSON.

(** An array with a numeral that has an exponent, one that has a
    fraction, a string with an escape above U+00FF and an integer above
    2^53. *)
Definition wideArrayFile : string :=
  "[1e3, 1.5, " ++ String dquote ("\u20ac" ++ String dquote ", 9007199254740993]").

Definition wideArrayWorld : World := mkWorld (Some wideArrayFile) [] [] 0.

(** A number that is no array. *)
Definition fractionWorld : World := mkWorld (Some "1.5") [] [] 0.

End Texts.
(* ================================================================== *)
(** * Part II: properties *)
(* ================================================================== *)

(** ** Facts about JSON texts *)

Module JSONFacts.

Import JSON.

Lemma ofChars_chars (s : string) : Str.ofChars (Str.chars s) = s.
Proof. apply string_of_list_ascii_of_string. Qed.

Lemma chars_ofChars (l : list ascii) : Str.chars (Str.ofChars l) = l.
Proof. apply list_ascii_of_string_of_list_ascii. Qed.

Lemma skipWs_app (ws s : list ascii) :
  allSpaces ws -> skipWs (ws ++ s) = skipWs s.
Proof.
  induction 1 as [|c ws Hc _ IH]; simpl; [reflexivity|].
  now rewrite Hc.
Qed.

Lemma skipWs_solid (s : list ascii) : solid s -> skipWs s = s.
Proof. destruct s as [|c s]; simpl; [reflexivity|]. now intros ->. Qed.

(** *** String literals *)

Lemma parseStringBody_quoteChar (c : ascii) (tail : list ascii) :
  parseStringBody (quoteChar c ++ tail) = consTo c (parseStringBody tail).
Proof.
  destruct c as [[] [] [] [] [] [] [] []]; reflexivity.
Qed.

Lemma parseStringBody_quoted (cs rest : list ascii) :
  parseStringBody (flat_map quoteChar cs ++ dquote :: rest) = Some (cs, rest).
Proof.
  induction cs as [|c cs IH]; simpl.
  - reflexivity.
  - rewrite <- app_assoc, parseStringBody_quoteChar, IH. reflexivity.
Qed.

Lemma quote_app (s : string) (rest : list ascii) :
  quote s ++ rest = dquote :: flat_map quoteChar (Str.chars s) ++ dquote :: rest.
Proof. unfold quote. simpl. now rewrite <- app_assoc. Qed.

(** *** Numerals *)

Lemma delimiter_no_digit (c : ascii) : isDelimiter c = true -> digitOf c = None.
Proof.
  destruct c as [[] [] [] [] [] [] [] []]; simpl; intros H;
    solve [reflexivity | discriminate H].
Qed.

Lemma delimiter_ends_number (c : ascii) (s : list ascii) :
  isDelimiter c = true -> continuesNumber (c :: s) = false.
Proof.
  destruct c as [[] [] [] [] [] [] [] []]; simpl; intros H;
    solve [reflexivity | discriminate H].
Qed.

Lemma scanDigits_digitsOf (u : Decimal.uint) (rest : list ascii) :
  delimited rest -> scanDigits (digitsOf u ++ rest) = (u, rest).
Proof.
  intros Hrest.
  induction u as [|u IH|u IH|u IH|u IH|u IH|u IH|u IH|u IH|u IH|u IH];
    simpl; try (rewrite IH; reflexivity).
  destruct rest as [|c rest]; simpl; [reflexivity|].
  now rewrite (delimiter_no_digit c Hrest).
Qed.

Lemma to_int_normal (z : Z) : Decimal.norm (Z.to_int z) = Z.to_int z.
Proof.
  rewrite <- (DecimalZ.to_of (Z.to_int z)).
  now rewrite DecimalZ.of_to.
Qed.

Lemma unorm_fixed_no_leading_zero (u : Decimal.uint) :
  Decimal.unorm u = u -> u <> Decimal.Nil /\ leadingZero u = false.
Proof.
  intros H. split.
  - intros ->. discriminate H.
  - destruct u as [|t| | | | | | | | | ]; try reflexivity.
    destruct t as [|t'| | | | | | | | | ]; try reflexivity;
      exfalso;
      rewrite DecimalFacts.unorm_D0 in H;
      match type of H with
      | Decimal.unorm ?t = _ =>
          assert (Hn : t <> Decimal.Nil) by discriminate;
          pose proof (DecimalFacts.nb_digits_unorm t Hn) as Hle;
          rewrite H in Hle; simpl in Hle; lia
      end.
Qed.

Lemma nzhead_fixed_no_leading_zero (u : Decimal.uint) :
  Decimal.nzhead u = u -> leadingZero u = false.
Proof.
  intros H.
  destruct u as [|t| | | | | | | | | ]; try reflexivity.
  exfalso. exact (DecimalFacts.nzhead_nonzero _ _ H).
Qed.

Lemma continuesNumber_delimited (rest : list ascii) :
  delimited rest -> continuesNumber rest = false.
Proof.
  destruct rest as [|c rest]; [reflexivity|].
  apply delimiter_ends_number.
Qed.

Lemma parseNumber_digits (u : Decimal.uint) (rest : list ascii) :
  u <> Decimal.Nil -> leadingZero u = false -> delimited rest ->
  parseNumber (digitsOf u ++ rest) = Some (Z.of_int (Decimal.Pos u), rest).
Proof.
  intros Hnil Hlz Hrest.
  assert (Hfirst : match digitsOf u ++ rest with
                   | c :: _ => (Str.code c =? 45)%nat = false
                   | [] => False
                   end).
  { destruct u; simpl; solve [congruence | reflexivity]. }
  unfold parseNumber.
  destruct (digitsOf u ++ rest) as [|c s'] eqn:E; [contradiction|].
  rewrite Hfirst, <- E, (scanDigits_digitsOf u rest Hrest).
  rewrite Hlz, (continuesNumber_delimited rest Hrest).
  destruct u; solve [congruence | reflexivity].
Qed.

Lemma parseNumber_minus_digits (u : Decimal.uint) (rest : list ascii) :
  u <> Decimal.Nil -> leadingZero u = false -> delimited rest ->
  parseNumber ("-"%char :: digitsOf u ++ rest)
  = Some (Z.of_int (Decimal.Neg u), rest).
Proof.
  intros Hnil Hlz Hrest.
  unfold parseNumber.
  change (Str.code "-" =? 45)%nat with true. cbv iota.
  rewrite (scanDigits_digitsOf u rest Hrest).
  rewrite Hlz, (continuesNumber_delimited rest Hrest).
  destruct u; solve [congruence | reflexivity].
Qed.

Lemma parseNumber_numberToString (n : Z) (rest : list ascii) :
  delimited rest ->
  parseNumber (numberToString n ++ rest) = Some (n, rest).
Proof.
  intros Hrest.
  pose proof (to_int_normal n) as Hnorm.
  pose proof (DecimalZ.of_to n) as Hback.
  unfold numberToString.
  destruct (Z.to_int n) as [u|u] eqn:E.
  - simpl in Hnorm. injection Hnorm as Hu.
    destruct (unorm_fixed_no_leading_zero u Hu) as [Hnil Hlz].
    rewrite parseNumber_digits by assumption. now rewrite Hback.
  - simpl in Hnorm.
    assert (Hz : Decimal.nzhead u = u /\ u <> Decimal.Nil).
    { destruct (Decimal.nzhead u) eqn:Hz; try discriminate Hnorm;
        injection Hnorm as Hu; subst u; split; solve [reflexivity | discriminate]. }
    destruct Hz as [Hz Hnil].
    rewrite <- app_comm_cons, parseNumber_minus_digits;
      [now rewrite Hback | assumption
      | now apply nzhead_fixed_no_leading_zero | assumption].
Qed.

(** The first character of a numeral is a digit or the minus sign. *)
Lemma numberToString_first (n : Z) (rest : list ascii) :
  exists c s, numberToString n ++ rest = c :: s
              /\ (digitOf c <> None \/ (Str.code c =? 45)%nat = true).
Proof.
  unfold numberToString.
  pose proof (to_int_normal n) as Hnorm.
  destruct (Z.to_int n) as [u|u].
  - simpl in Hnorm. injection Hnorm as Hu.
    destruct (unorm_fixed_no_leading_zero u Hu) as [Hnil _].
    destruct u; try congruence; simpl; eexists _, _; split;
      solve [reflexivity | left; discriminate].
  - simpl. eexists _, _. split; [reflexivity|]. now right.
Qed.

(** *** The shape of a serialised array or object *)

Lemma join_cons (sep p : list ascii) (ps : list (list ascii)) :
  join sep (p :: ps)
  = p ++ match ps with [] => [] | _ :: _ => sep ++ join sep ps end.
Proof. destruct ps; simpl; [now rewrite app_nil_r | reflexivity]. Qed.

Lemma join_cons2 (sep p : list ascii) (ps : list (list ascii)) :
  ps <> [] -> join sep (p :: ps) = p ++ sep ++ join sep ps.
Proof. destruct ps; [congruence | reflexivity]. Qed.

Lemma serialize_array (gap indent : list ascii) (e : value) (l : list value) :
  serialize gap indent (JArray (e :: l))
  = "["%char :: opening gap (indent ++ gap)
      ++ join (","%char :: opening gap (indent ++ gap))
              (map (serialize gap (indent ++ gap)) (e :: l))
      ++ closing gap indent ++ ["]"%char].
Proof.
  unfold opening, closing. cbn [serialize map].
  destruct gap; cbn [isEmpty app]; reflexivity.
Qed.

Lemma serialize_object (gap indent : list ascii) (kv : string * value)
      (m : list (string * value)) :
  serialize gap indent (JObject (kv :: m))
  = "{"%char :: opening gap (indent ++ gap)
      ++ join (","%char :: opening gap (indent ++ gap))
              (map (member gap (indent ++ gap)) (kv :: m))
      ++ closing gap indent ++ ["}"%char].
Proof.
  unfold opening, closing, member, colonGap. cbn [serialize map].
  destruct gap; cbn [isEmpty app]; reflexivity.
Qed.

Lemma allSpaces_opening (gap indent : list ascii) :
  allSpaces indent -> allSpaces (opening gap indent).
Proof.
  intros H. unfold opening. destruct (isEmpty gap); [constructor|].
  constructor; [reflexivity | exact H].
Qed.

Lemma allSpaces_closing (gap indent : list ascii) :
  allSpaces indent -> allSpaces (closing gap indent).
Proof.
  intros H. unfold closing. destruct (isEmpty gap); [constructor|].
  constructor; [reflexivity | exact H].
Qed.

Lemma allSpaces_colonGap (gap : list ascii) : allSpaces (colonGap gap).
Proof.
  unfold colonGap. destruct (isEmpty gap); repeat constructor.
Qed.

Lemma allSpaces_app (a b : list ascii) :
  allSpaces a -> allSpaces b -> allSpaces (a ++ b).
Proof. intros Ha Hb. apply Forall_app. now split. Qed.

(** *** One step of the parser *)

Lemma parseValue_skip (fuel : nat) (ws s : list ascii) :
  allSpaces ws -> parseValue fuel (ws ++ s) = parseValue fuel s.
Proof.
  intros H. destruct fuel; [reflexivity|].
  cbn [parseValue]. now rewrite (skipWs_app ws s H).
Qed.

Lemma parseMembers_skip (fuel : nat) (ws s : list ascii) :
  allSpaces ws -> parseMembers fuel (ws ++ s) = parseMembers fuel s.
Proof.
  intros H. destruct fuel; [reflexivity|].
  cbn [parseMembers]. now rewrite (skipWs_app ws s H).
Qed.

Lemma parseValue_numeral (fuel : nat) (c : ascii) (s : list ascii) :
  startsNumeral c ->
  parseValue (S fuel) (c :: s)
  = match parseNumber (c :: s) with
    | Some (z, rest) => Some (JNumber z, rest)
    | None => None
    end.
Proof.
  unfold startsNumeral.
  destruct c as [[] [] [] [] [] [] [] []]; intros [H|H];
    solve [reflexivity | now elim H | discriminate H].
Qed.

Lemma startsNumeral_solid (c : ascii) :
  startsNumeral c ->
  isJsonSpace c = false /\ (Str.code c =? 93)%nat = false.
Proof.
  unfold startsNumeral.
  destruct c as [[] [] [] [] [] [] [] []]; intros [H|H];
    solve [split; reflexivity | now elim H | discriminate H].
Qed.

(** A serialised value starts with a character that is neither white
    space nor a closing square bracket. *)
Lemma serialize_first (gap indent : list ascii) (v : value) (rest : list ascii) :
  exists c s, serialize gap indent v ++ rest = c :: s
              /\ isJsonSpace c = false /\ (Str.code c =? 93)%nat = false.
Proof.
  destruct v as [|b|n|str|l|m].
  - eexists _, _. cbn. repeat split; reflexivity.
  - destruct b; eexists _, _; cbn; repeat split; reflexivity.
  - destruct (numberToString_first n rest) as (c & s & E & Hc).
    exists c, s. split; [exact E|]. now apply startsNumeral_solid.
  - eexists _, _. cbn. repeat split; reflexivity.
  - destruct l as [|e l].
    + eexists _, _. cbn. repeat split; reflexivity.
    + rewrite serialize_array. eexists _, _. cbn. repeat split; reflexivity.
  - destruct m as [|kv m].
    + eexists _, _. cbn. repeat split; reflexivity.
    + rewrite serialize_object. eexists _, _. cbn. repeat split; reflexivity.
Qed.

Lemma delimited_spaces (ws : list ascii) (c : ascii) (rest : list ascii) :
  allSpaces ws -> isDelimiter c = true -> delimited (ws ++ c :: rest).
Proof.
  intros Hws Hc. destruct Hws as [|a ws Ha _]; simpl; [exact Hc|].
  unfold isDelimiter. now rewrite Ha.
Qed.

(** *** Reading back the elements of an array *)

Section Elements.

Variables gap indent : list ascii.

Let ser := serialize gap indent.
Let readsBack := JSON.readsBack gap indent.

Lemma parseElements_join (l : list value) :
  l <> [] -> Forall readsBack l ->
  forall fuel ws1 ws2 rest,
    allSpaces ws1 -> allSpaces ws2 ->
    (list_sum (map (fun e => S (size e)) l) <= fuel)%nat ->
    parseElements fuel
      (ws1 ++ join (","%char :: ws1) (map ser l) ++ ws2 ++ "]"%char :: rest)
    = Some (l, rest).
Proof.
  intros Hne Hall. induction Hall as [|e l He Hl IH]; [congruence|].
  intros fuel ws1 ws2 rest H1 H2 Hfuel.
  cbn [map list_sum] in Hfuel.
  destruct fuel as [|fuel]; [simpl in Hfuel; lia|].
  cbn [parseElements]. rewrite (parseValue_skip fuel ws1 _ H1).
  destruct l as [|e2 l].
  - cbn [map join]. rewrite He;
      [| simpl in Hfuel; lia | now apply delimited_spaces].
    rewrite (skipWs_app ws2 _ H2). reflexivity.
  - change (map ser (e :: e2 :: l)) with (ser e :: map ser (e2 :: l)).
    rewrite join_cons2 by discriminate.
    rewrite <- !app_assoc, <- app_comm_cons.
    rewrite He; [| simpl in Hfuel; lia | reflexivity].
    rewrite skipWs_solid by reflexivity.
    change (Str.code ","%char =? 44)%nat with true. cbv iota.
    rewrite IH; [reflexivity | discriminate | assumption | assumption |].
    simpl in Hfuel |- *. lia.
Qed.

Lemma member_app (kv : string * value) (tail : list ascii) :
  member gap indent kv ++ tail
  = dquote :: flat_map quoteChar (Str.chars (fst kv))
      ++ dquote :: ":"%char :: colonGap gap ++ ser (snd kv) ++ tail.
Proof.
  unfold member. rewrite <- app_assoc, quote_app.
  now rewrite <- app_comm_cons, <- app_assoc.
Qed.

Lemma parseMembers_join (m : list (string * value)) :
  m <> [] -> Forall (fun kv => readsBack (snd kv)) m ->
  forall fuel ws1 ws2 rest,
    allSpaces ws1 -> allSpaces ws2 ->
    (list_sum (map (fun kv => S (size (snd kv))) m) <= fuel)%nat ->
    parseMembers fuel
      (ws1 ++ join (","%char :: ws1) (map (member gap indent) m)
           ++ ws2 ++ "}"%char :: rest)
    = Some (m, rest).
Proof.
  intros Hne Hall. induction Hall as [|[k v] m He Hm IH]; [congruence|].
  intros fuel ws1 ws2 rest H1 H2 Hfuel.
  cbn [map list_sum snd] in Hfuel. cbn [snd] in He.
  destruct fuel as [|fuel]; [simpl in Hfuel; lia|].
  cbn [parseMembers]. rewrite (skipWs_app ws1 _ H1).
  destruct m as [|kv2 m].
  - cbn [map join]. rewrite member_app. cbn [fst snd].
    rewrite skipWs_solid by reflexivity.
    change (Str.code dquote =? 34)%nat with true. cbv iota.
    rewrite parseStringBody_quoted.
    rewrite skipWs_solid by reflexivity.
    change (Str.code ":"%char =? 58)%nat with true. cbv iota.
    rewrite (parseValue_skip fuel _ _ (allSpaces_colonGap gap)).
    rewrite He; [| simpl in Hfuel; lia | now apply delimited_spaces].
    rewrite (skipWs_app ws2 _ H2), ofChars_chars. reflexivity.
  - change (map (member gap indent) ((k, v) :: kv2 :: m))
      with (member gap indent (k, v) :: map (member gap indent) (kv2 :: m)).
    rewrite join_cons2 by discriminate.
    rewrite <- !app_assoc, member_app. cbn [fst snd].
    rewrite skipWs_solid by reflexivity.
    change (Str.code dquote =? 34)%nat with true. cbv iota.
    rewrite parseStringBody_quoted.
    rewrite skipWs_solid by reflexivity.
    change (Str.code ":"%char =? 58)%nat with true. cbv iota.
    rewrite (parseValue_skip fuel _ _ (allSpaces_colonGap gap)).
    rewrite <- app_comm_cons.
    rewrite He; [| simpl in Hfuel; lia | reflexivity].
    rewrite skipWs_solid by reflexivity.
    change (Str.code ","%char =? 44)%nat with true. cbv iota.
    rewrite IH; [now rewrite ofChars_chars | discriminate | assumption | assumption |].
    simpl in Hfuel |- *. lia.
Qed.

Lemma skipWs_elements (e : value) (l : list value) (ws tail : list ascii) :
  allSpaces ws ->
  exists c s,
    skipWs (ws ++ join (","%char :: ws) (map ser (e :: l)) ++ tail) = c :: s
    /\ (Str.code c =? 93)%nat = false.
Proof.
  intros Hws. rewrite (skipWs_app _ _ Hws).
  cbn [map]. rewrite join_cons, <- app_assoc.
  destruct (serialize_first gap indent e
              (match map ser l with
               | [] => []
               | _ :: _ => (","%char :: ws) ++ join (","%char :: ws) (map ser l)
               end ++ tail)) as (c & s & E & Hc1 & Hc2).
  fold ser in E. rewrite E. cbn [skipWs]. rewrite Hc1. now exists c, s.
Qed.

Lemma skipWs_members (kv : string * value) (m : list (string * value))
      (ws tail : list ascii) :
  allSpaces ws ->
  exists c s,
    skipWs (ws ++ join (","%char :: ws) (map (member gap indent) (kv :: m)) ++ tail)
    = c :: s
    /\ (Str.code c =? 125)%nat = false.
Proof.
  intros Hws. rewrite (skipWs_app _ _ Hws).
  cbn [map]. rewrite join_cons, <- app_assoc, member_app.
  eexists _, _. split; reflexivity.
Qed.

End Elements.

(** *** Objects whose keys are in the runtime's order *)

Lemma keyBefore_irrefl (k : string) : keyBefore k k = false.
Proof.
  unfold keyBefore. destruct (arrayIndex k).
  - apply N.ltb_irrefl.
  - now rewrite String.eqb_refl.
Qed.

Lemma hasMember_allBefore (k : string) (m : list (string * value)) :
  allBefore k m -> hasMember k m = false.
Proof.
  induction 1 as [|[k' v'] m Hk _ IH]; [reflexivity|].
  cbn [hasMember existsb fst] in *. fold (hasMember k m). rewrite IH, orb_false_r.
  destruct (String.eqb_spec k' k) as [->|]; [|reflexivity].
  now rewrite keyBefore_irrefl in Hk.
Qed.

Lemma insertIndexed_allBefore (i : N) (k : string) (v : value)
      (m : list (string * value)) :
  arrayIndex k = Some i -> allBefore k m ->
  insertIndexed i k v m = m ++ [(k, v)].
Proof.
  intros Hi. induction 1 as [|[k' v'] m Hk _ IH]; [reflexivity|].
  cbn [insertIndexed app]. cbn [fst] in Hk.
  unfold keyBefore in Hk. rewrite Hi in Hk.
  destruct (arrayIndex k') as [j|]; [|discriminate Hk].
  now rewrite Hk, IH.
Qed.

Lemma defineMember_allBefore (k : string) (v : value) (m : list (string * value)) :
  allBefore k m -> defineMember m (k, v) = m ++ [(k, v)].
Proof.
  intros H. unfold defineMember. rewrite (hasMember_allBefore k m H).
  destruct (arrayIndex k) as [i|] eqn:Hi; [|reflexivity].
  now apply insertIndexed_allBefore.
Qed.

Lemma canonicalKeys_allBefore (m1 m2 : list (string * value)) (k : string) (v : value) :
  canonicalKeys (map fst (m1 ++ (k, v) :: m2)) = true -> allBefore k m1.
Proof.
  induction m1 as [|[k' v'] m1 IH]; intros H; [constructor|].
  cbn [app map fst canonicalKeys] in H.
  apply andb_true_iff in H. destruct H as [Hk Hrest].
  constructor; [|now apply IH].
  cbn [fst]. rewrite forallb_forall in Hk. apply Hk.
  rewrite map_app. apply in_or_app. right. now left.
Qed.

Lemma fold_defineMember (rest acc : list (string * value)) :
  canonicalKeys (map fst (acc ++ rest)) = true ->
  fold_left defineMember rest acc = acc ++ rest.
Proof.
  revert acc. induction rest as [|[k v] rest IH]; intros acc H.
  - now rewrite app_nil_r.
  - cbn [fold_left].
    rewrite (defineMember_allBefore k v acc (canonicalKeys_allBefore _ _ _ _ H)).
    rewrite IH; rewrite <- app_assoc; [reflexivity | exact H].
Qed.

Lemma makeObject_canonical (m : list (string * value)) :
  canonicalKeys (map fst m) = true -> makeObject m = JObject m.
Proof.
  intros H. unfold makeObject. now rewrite (fold_defineMember m [] H).
Qed.

(** *** Parsing what was serialised *)

Section RoundTrip.

Variable gap : list ascii.
Hypothesis gap_spaces : allSpaces gap.

Lemma parseValue_serialize (v : value) :
  wellFormed v = true ->
  forall indent, allSpaces indent -> readsBack gap indent v.
Proof.
  induction v as [|b|n|str|l IH|m IH] using value_ind;
    intros Hwf indent Hind fuel rest Hfuel Hrest;
    (destruct fuel as [|fuel]; [simpl in Hfuel; lia|]).
  - reflexivity.
  - destruct b; reflexivity.
  - cbn [serialize].
    destruct (numberToString_first n rest) as (c & s & E & Hc).
    rewrite E, (parseValue_numeral fuel c s Hc), <- E.
    now rewrite (parseNumber_numberToString n rest Hrest).
  - cbn [serialize]. rewrite quote_app.
    cbn [parseValue]. rewrite skipWs_solid by reflexivity.
    change (Str.code dquote) with 34%nat. cbn [Nat.eqb].
    now rewrite parseStringBody_quoted, ofChars_chars.
  - destruct l as [|e l]; [reflexivity|].
    rewrite serialize_array, <- app_comm_cons.
    cbn [parseValue]. rewrite skipWs_solid by reflexivity.
    change (Str.code "["%char) with 91%nat. cbn [Nat.eqb].
    rewrite <- !app_assoc.
    assert (Hsp : allSpaces (opening gap (indent ++ gap))).
    { apply allSpaces_opening, allSpaces_app; assumption. }
    destruct (skipWs_elements gap (indent ++ gap) e l _
                (closing gap indent ++ ["]"%char] ++ rest) Hsp)
      as (c & s & E & Hc).
    rewrite E, Hc. cbn [app].
    rewrite (parseElements_join gap (indent ++ gap) (e :: l));
      [reflexivity | discriminate | | assumption
      | now apply allSpaces_closing | simpl in Hfuel |- *; lia].
    cbn [wellFormed] in Hwf. rewrite forallb_forall in Hwf.
    rewrite Forall_forall in IH |- *. intros x Hx.
    apply IH; [assumption | now apply Hwf | now apply allSpaces_app].
  - destruct m as [|kv m]; [reflexivity|].
    cbn [wellFormed] in Hwf. apply andb_true_iff in Hwf.
    destruct Hwf as [Hkeys Hwf].
    rewrite serialize_object, <- app_comm_cons.
    cbn [parseValue]. rewrite skipWs_solid by reflexivity.
    change (Str.code "{"%char) with 123%nat. cbn [Nat.eqb].
    rewrite <- !app_assoc.
    assert (Hsp : allSpaces (opening gap (indent ++ gap))).
    { apply allSpaces_opening, allSpaces_app; assumption. }
    destruct (skipWs_members gap (indent ++ gap) kv m _
                (closing gap indent ++ ["}"%char] ++ rest) Hsp)
      as (c & s & E & Hc).
    rewrite E, Hc. cbn [app].
    rewrite (parseMembers_join gap (indent ++ gap) (kv :: m));
      [now rewrite (makeObject_canonical _ Hkeys) | discriminate | | assumption
      | now apply allSpaces_closing | simpl in Hfuel |- *; lia].
    rewrite forallb_forall in Hwf.
    rewrite Forall_forall in IH |- *. intros x Hx.
    apply IH; [assumption | now apply Hwf | now apply allSpaces_app].
Qed.

(** The text of a value is at least as long as the bound on the calls. *)
Lemma join_long {A : Type} (f : A -> list ascii) (sz : A -> nat)
      (sep : list ascii) (l : list A) :
  sep <> [] -> Forall (fun x => (sz x <= List.length (f x))%nat) l ->
  (list_sum (map (fun x => S (sz x)) l) <= S (List.length (join sep (map f l))))%nat.
Proof.
  intros Hsep. induction 1 as [|x l Hx _ IH]; [simpl; lia|].
  cbn [map]. rewrite join_cons, length_app. cbn [list_sum].
  destruct l as [|y l]; [simpl; lia|].
  cbn [map] in IH |- *. rewrite length_app.
  destruct sep; [congruence|]. cbn [List.length list_sum fold_right] in *. lia.
Qed.

Lemma size_serialize (v : value) :
  forall indent, (size v <= List.length (serialize gap indent v))%nat.
Proof.
  induction v as [|b|n|str|l IH|m IH] using value_ind; intros indent.
  - simpl. lia.
  - destruct b; simpl; lia.
  - cbn [serialize size].
    destruct (numberToString_first n []) as (c & s & E & _).
    rewrite app_nil_r in E. rewrite E. simpl. lia.
  - cbn [serialize size]. unfold quote. simpl. lia.
  - destruct l as [|e l]; [simpl; lia|].
    rewrite serialize_array. cbn [size List.length].
    rewrite !length_app.
    pose proof (join_long (serialize gap (indent ++ gap)) size
                  (","%char :: opening gap (indent ++ gap)) (e :: l)) as H.
    cbn [List.length].
    assert (Hall : Forall (fun x => (size x <= List.length (serialize gap (indent ++ gap) x))%nat)
                          (e :: l)).
    { rewrite Forall_forall in IH |- *. intros x Hx. now apply IH. }
    specialize (H ltac:(discriminate) Hall). lia.
  - destruct m as [|kv m]; [simpl; lia|].
    rewrite serialize_object. cbn [size List.length].
    rewrite !length_app.
    pose proof (join_long (member gap (indent ++ gap)) (fun kv => size (snd kv))
                  (","%char :: opening gap (indent ++ gap)) (kv :: m)) as H.
    cbn [List.length].
    assert (Hall : Forall (fun x => (size (snd x)
                                     <= List.length (member gap (indent ++ gap) x))%nat)
                          (kv :: m)).
    { rewrite Forall_forall in IH |- *. intros x Hx.
      unfold member. rewrite length_app. cbn [List.length]. rewrite length_app.
      specialize (IH x Hx (indent ++ gap)). lia. }
    specialize (H ltac:(discriminate) Hall). lia.
Qed.

End RoundTrip.

Lemma allSpaces_repeat (n : nat) : allSpaces (repeat space n).
Proof. induction n; simpl; constructor; [reflexivity | assumption]. Qed.

(** [JSON.parse(JSON.stringify(v, null, n))] is [v]. *)
Lemma parse_stringify (v : value) (n : nat) :
  wellFormed v = true -> parse (stringify v n) = Ok v.
Proof.
  intros Hwf. unfold parse, stringify. rewrite chars_ofChars.
  set (gap := repeat space (Nat.min 10 n)).
  pose proof (parseValue_serialize gap (allSpaces_repeat _) v Hwf []
                ltac:(constructor)
                (S (List.length (serialize gap [] v))) []) as H.
  rewrite app_nil_r in H. rewrite H; [reflexivity | | exact I].
  pose proof (size_serialize gap v []). lia.
Qed.


End JSONFacts.

(** ** Parsed values are values of the runtime *)

Module ParsedFacts.

Import JSON.

Lemma digitOf_char (c : ascii) (d : Decimal.uint -> Decimal.uint) :
  digitOf c = Some d -> forall u, digitsOf (d u) = c :: digitsOf u.
Proof.
  destruct c as [[] [] [] [] [] [] [] []]; cbn; intros H;
    try discriminate H; injection H as <-; reflexivity.
Qed.

Lemma scanDigits_exact (s : list ascii) :
  forall u, scanDigits s = (u, []) -> s = digitsOf u.
Proof.
  induction s as [|c s IH]; intros u H; cbn [scanDigits] in H.
  - now injection H as <-.
  - destruct (digitOf c) as [d|] eqn:Hd; [|discriminate H].
    destruct (scanDigits s) as [u' r] eqn:Hs.
    injection H as <- ->.
    rewrite (digitOf_char c d Hd). f_equal. now apply IH.
Qed.

Lemma unorm_normal (u : Decimal.uint) :
  u <> Decimal.Nil -> leadingZero u = false -> Decimal.unorm u = u.
Proof.
  intros Hnil Hlz.
  destruct u as [|t| | | | | | | | | ]; try congruence; try reflexivity.
  destruct t; try discriminate Hlz. reflexivity.
Qed.

Lemma arrayIndex_inj (k k' : string) (i : N) :
  arrayIndex k = Some i -> arrayIndex k' = Some i -> k = k'.
Proof.
  assert (Hshape : forall k i, arrayIndex k = Some i ->
            exists u, Str.chars k = digitsOf u /\ Decimal.unorm u = u /\ N.of_uint u = i).
  { clear. intros k i. unfold arrayIndex.
    destruct (scanDigits (Str.chars k)) as [u r] eqn:Hs. intros H.
    assert (Hu : u <> Decimal.Nil) by (intros ->; discriminate H).
    assert (Hr : r = []).
    { destruct r; [reflexivity|]. destruct u; discriminate H. }
    subst r.
    assert (Hlz : leadingZero u = false).
    { destruct (leadingZero u) eqn:E; [|reflexivity]. destruct u; discriminate H. }
    exists u. split; [now apply scanDigits_exact|].
    split; [now apply unorm_normal|].
    rewrite Hlz in H. destruct (N.ltb _ _); destruct u; congruence. }
  intros H H'.
  destruct (Hshape k i H) as (u & Hk & Hu & Hi).
  destruct (Hshape k' i H') as (u' & Hk' & Hu' & Hi').
  assert (E : u = u').
  { rewrite <- Hu, <- Hu'. apply DecimalN.Unsigned.of_inj. congruence. }
  subst u'. rewrite <- (JSONFacts.ofChars_chars k), <- (JSONFacts.ofChars_chars k').
  congruence.
Qed.

(** *** The order of keys *)

Lemma keyBefore_trans (a b c : string) :
  keyBefore a b = true -> keyBefore b c = true -> keyBefore a c = true \/ a = c.
Proof.
  unfold keyBefore.
  destruct (arrayIndex a) as [i|], (arrayIndex b) as [j|], (arrayIndex c) as [l|];
    try discriminate; auto.
  - rewrite !N.ltb_lt. left. lia.
  - intros _ _. destruct (String.eqb_spec a c); auto.
Qed.

Lemma keyBefore_total (a b : string) :
  a <> b -> keyBefore a b = true \/ keyBefore b a = true.
Proof.
  intros Hne. unfold keyBefore.
  destruct (arrayIndex a) as [i|] eqn:Ha, (arrayIndex b) as [j|] eqn:Hb; auto.
  - rewrite !N.ltb_lt.
    destruct (N.lt_trichotomy i j) as [H|[H|H]]; auto.
    subst j. elim Hne. exact (arrayIndex_inj a b i Ha Hb).
  - left. destruct (String.eqb_spec a b); [contradiction | reflexivity].
Qed.

Lemma canonicalKeys_cons (k : string) (ks : list string) :
  canonicalKeys (k :: ks) = true
  <-> (forall x, In x ks -> keyBefore k x = true) /\ canonicalKeys ks = true.
Proof. cbn [canonicalKeys]. now rewrite andb_true_iff, forallb_forall. Qed.

Lemma hasMember_false (k : string) (m : list (string * value)) :
  hasMember k m = false <-> ~ In k (map fst m).
Proof.
  unfold hasMember. induction m as [|[k' v'] m IH]; cbn [existsb map fst In].
  - tauto.
  - rewrite orb_false_iff, IH. destruct (String.eqb_spec k' k); intuition congruence.
Qed.

Lemma keys_replaceMember (k : string) (v : value) (m : list (string * value)) :
  map fst (replaceMember k v m) = map fst m.
Proof.
  induction m as [|[k' v'] m IH]; [reflexivity|].
  cbn [replaceMember]. destruct (String.eqb k' k); cbn [map fst]; congruence.
Qed.

Lemma keys_insertIndexed (i : N) (k : string) (v : value) (m : list (string * value)) :
  forall x, In x (map fst (insertIndexed i k v m)) <-> x = k \/ In x (map fst m).
Proof.
  induction m as [|[k' v'] m IH]; intros x; cbn [insertIndexed].
  - cbn. intuition congruence.
  - destruct (arrayIndex k') as [j|]; [destruct (N.ltb j i)|];
      cbn [map fst In]; try rewrite IH; intuition congruence.
Qed.

Lemma canonical_insertHead (k k' : string) (ks : list string) :
  keyBefore k k' = true -> ~ In k ks -> canonicalKeys (k' :: ks) = true ->
  canonicalKeys (k :: k' :: ks) = true.
Proof.
  intros Hkk Hnew Hcan. apply canonicalKeys_cons. split; [|exact Hcan].
  apply canonicalKeys_cons in Hcan. destruct Hcan as [Hk' _].
  intros x [<-|Hx]; [exact Hkk|].
  destruct (keyBefore_trans k k' x Hkk (Hk' x Hx)) as [H|H]; [exact H|].
  subst x. contradiction.
Qed.

Lemma canonical_insertIndexed (i : N) (k : string) (v : value)
      (m : list (string * value)) :
  arrayIndex k = Some i -> ~ In k (map fst m) ->
  canonicalKeys (map fst m) = true ->
  canonicalKeys (map fst (insertIndexed i k v m)) = true.
Proof.
  intros Hi. induction m as [|[k' v'] m IH]; intros Hnew Hcan; [reflexivity|].
  cbn [map fst In] in Hnew, Hcan. cbn [insertIndexed].
  assert (Hne : k <> k') by (intros ->; apply Hnew; now left).
  assert (Hnew' : ~ In k (map fst m)) by (intros H; apply Hnew; now right).
  destruct (arrayIndex k') as [j|] eqn:Hj; [destruct (N.ltb j i) eqn:Hji|].
  - cbn [map fst]. apply canonicalKeys_cons in Hcan. destruct Hcan as [Hk' Hcan].
    apply canonicalKeys_cons. split; [|now apply IH].
    intros x Hx. apply keys_insertIndexed in Hx. destruct Hx as [->|Hx]; [|now apply Hk'].
    unfold keyBefore. now rewrite Hj, Hi.
  - cbn [map fst]. apply canonical_insertHead; try assumption.
    destruct (keyBefore_total k k' Hne) as [H|H]; [exact H|].
    unfold keyBefore in H. rewrite Hj, Hi, Hji in H. discriminate H.
  - cbn [map fst]. apply canonical_insertHead; try assumption.
    unfold keyBefore. now rewrite Hi, Hj.
Qed.

Lemma canonical_append (k : string) (v : value) (m : list (string * value)) :
  arrayIndex k = None -> ~ In k (map fst m) ->
  canonicalKeys (map fst m) = true ->
  canonicalKeys (map fst (m ++ [(k, v)])) = true.
Proof.
  intros Hi. induction m as [|[k' v'] m IH]; intros Hnew Hcan; [reflexivity|].
  cbn [map fst In app] in *.
  apply canonicalKeys_cons in Hcan. destruct Hcan as [Hk' Hcan].
  apply canonicalKeys_cons. split.
  - intros x Hx. rewrite map_app in Hx. apply in_app_or in Hx.
    destruct Hx as [Hx|[<-|[]]]; [now apply Hk'|].
    cbn [fst]. unfold keyBefore. rewrite Hi. destruct (arrayIndex k'); [reflexivity|].
    destruct (String.eqb_spec k' k) as [->|]; [|reflexivity].
    elim Hnew. now left.
  - apply IH; [|exact Hcan]. intros H. apply Hnew. now right.
Qed.

Lemma canonical_defineMember (m : list (string * value)) (kv : string * value) :
  canonicalKeys (map fst m) = true ->
  canonicalKeys (map fst (defineMember m kv)) = true.
Proof.
  intros Hcan. destruct kv as [k v]. unfold defineMember.
  destruct (hasMember k m) eqn:Hm.
  - now rewrite keys_replaceMember.
  - apply hasMember_false in Hm.
    destruct (arrayIndex k) as [i|] eqn:Hi.
    + now apply canonical_insertIndexed.
    + now apply canonical_append.
Qed.

Lemma wellFormed_defineMember (m : list (string * value)) (kv : string * value) :
  wellFormedMembers m -> wellFormed (snd kv) = true ->
  wellFormedMembers (defineMember m kv).
Proof.
  unfold wellFormedMembers. intros Hm Hv. destruct kv as [k v]. cbn [snd] in Hv.
  unfold defineMember. destruct (hasMember k m).
  - induction Hm as [|[k' v'] m Hk' Hm IH]; [constructor|].
    cbn [replaceMember]. destruct (String.eqb k' k); constructor; assumption.
  - destruct (arrayIndex k) as [i|].
    + induction Hm as [|[k' v'] m Hk' Hm IH]; [now repeat constructor|].
      cbn [insertIndexed].
      destruct (arrayIndex k') as [j|]; [destruct (N.ltb j i)|];
        repeat constructor; assumption.
    + apply Forall_app. split; [exact Hm | now repeat constructor].
Qed.

Lemma wellFormed_makeObject (members : list (string * value)) :
  wellFormedMembers members -> wellFormed (makeObject members) = true.
Proof.
  intros H. unfold makeObject.
  assert (Hgen : forall acc,
            canonicalKeys (map fst acc) = true -> wellFormedMembers acc ->
            canonicalKeys (map fst (fold_left defineMember members acc)) = true
            /\ wellFormedMembers (fold_left defineMember members acc)).
  { induction H as [|kv members Hkv _ IH]; intros acc Hc Hw; [now split|].
    cbn [fold_left]. apply IH.
    - now apply canonical_defineMember.
    - now apply wellFormed_defineMember. }
  destruct (Hgen [] eq_refl (Forall_nil _)) as [Hc Hw].
  cbn [wellFormed]. rewrite Hc. cbn [andb].
  apply forallb_forall. now apply Forall_forall.
Qed.

(** *** What the parser returns *)

Lemma keyword_value (w : string) (v v' : value) (s rest : list ascii) :
  keyword w v s = Some (v', rest) -> v' = v.
Proof.
  unfold keyword. destruct (stripPrefix _ s); [|discriminate].
  now intros [= <- _].
Qed.

Lemma parser_wellFormed (fuel : nat) :
  (forall s v rest, parseValue fuel s = Some (v, rest) -> wellFormed v = true)
  /\ (forall s l rest, parseElements fuel s = Some (l, rest) -> wellFormedAll l)
  /\ (forall s m rest, parseMembers fuel s = Some (m, rest) -> wellFormedMembers m).
Proof.
  induction fuel as [|fuel (IHv & IHe & IHm)];
    [repeat split; intros; discriminate|].
  repeat split.
  - intros s v rest H. cbn [parseValue] in H.
    destruct (skipWs s) as [|c s1]; [discriminate H|].
    destruct (Str.code c =? 91)%nat.
    { destruct (skipWs s1) as [|c2 s2]; [discriminate H|].
      destruct (Str.code c2 =? 93)%nat; [now injection H as <- _|].
      destruct (parseElements fuel s1) as [[l r]|] eqn:E; [|discriminate H].
      injection H as <- _. cbn [wellFormed].
      apply forallb_forall. apply Forall_forall. exact (IHe _ _ _ E). }
    destruct (Str.code c =? 123)%nat.
    { destruct (skipWs s1) as [|c2 s2]; [discriminate H|].
      destruct (Str.code c2 =? 125)%nat; [now injection H as <- _|].
      destruct (parseMembers fuel s1) as [[m r]|] eqn:E; [|discriminate H].
      injection H as <- _. apply wellFormed_makeObject. exact (IHm _ _ _ E). }
    destruct (Str.code c =? 34)%nat.
    { destruct (parseStringBody s1) as [[cs r]|]; [|discriminate H].
      now injection H as <- _. }
    destruct (Str.code c =? 116)%nat; [now rewrite (keyword_value _ _ _ _ _ H)|].
    destruct (Str.code c =? 102)%nat; [now rewrite (keyword_value _ _ _ _ _ H)|].
    destruct (Str.code c =? 110)%nat; [now rewrite (keyword_value _ _ _ _ _ H)|].
    destruct (parseNumber (c :: s1)) as [[z r]|]; [|discriminate H].
    now injection H as <- _.
  - intros s l rest H. cbn [parseElements] in H.
    destruct (parseValue fuel s) as [[v s1]|] eqn:Ev; [|discriminate H].
    destruct (skipWs s1) as [|c s2]; [discriminate H|].
    destruct (Str.code c =? 44)%nat.
    { destruct (parseElements fuel s2) as [[l' r]|] eqn:E; [|discriminate H].
      injection H as <- _. constructor; [exact (IHv _ _ _ Ev) | exact (IHe _ _ _ E)]. }
    destruct (Str.code c =? 93)%nat; [|discriminate H].
    injection H as <- _. constructor; [exact (IHv _ _ _ Ev) | constructor].
  - intros s m rest H. cbn [parseMembers] in H.
    destruct (skipWs s) as [|q s1]; [discriminate H|].
    destruct (Str.code q =? 34)%nat; [|discriminate H].
    destruct (parseStringBody s1) as [[k s2]|]; [|discriminate H].
    destruct (skipWs s2) as [|c s3]; [discriminate H|].
    destruct (Str.code c =? 58)%nat; [|discriminate H].
    destruct (parseValue fuel s3) as [[v s4]|] eqn:Ev; [|discriminate H].
    destruct (skipWs s4) as [|d s5]; [discriminate H|].
    destruct (Str.code d =? 44)%nat.
    { destruct (parseMembers fuel s5) as [[m' r]|] eqn:E; [|discriminate H].
      injection H as <- _. constructor; [exact (IHv _ _ _ Ev) | exact (IHm _ _ _ E)]. }
    destruct (Str.code d =? 125)%nat; [|discriminate H].
    injection H as <- _. constructor; [exact (IHv _ _ _ Ev) | constructor].
Qed.

(** Every value [JSON.parse] returns is well formed. *)
Lemma parse_wellFormed (text : string) (v : value) :
  JSON.parse text = Ok v -> wellFormed v = true.
Proof.
  unfold JSON.parse.
  destruct (parseValue _ _) as [[v' rest]|] eqn:E; [|discriminate].
  destruct (skipWs rest); [|discriminate].
  intros [= <-]. exact (proj1 (parser_wellFormed _) _ _ _ E).
Qed.

Lemma entryValue_wellFormed (e : History.HistoryEntry) :
  wellFormed (History.entryValue e) = true.
Proof. reflexivity. Qed.

End ParsedFacts.

(** ** Facts about the matcher *)

Module RegExpFacts.

Import RegExp.

Lemma lastChar_cons (prev : option ascii) (c : ascii) (l : list ascii) :
  lastChar prev (c :: l) = lastChar (Some c) l.
Proof.
  unfold lastChar. cbn [map].
  generalize (Some c) as a. generalize (map Some l) as m. revert prev.
  assert (H : forall (m : list (option ascii)) a d, last (a :: m) d = last m a).
  { induction m as [|b m IH]; intros a d; [reflexivity|].
    change (last (a :: b :: m) d) with (last (b :: m) d).
    now rewrite (IH b d), (IH b a). }
  intros prev m a. apply H.
Qed.

Lemma lastChar_app (prev : option ascii) (l1 l2 : list ascii) :
  lastChar prev (l1 ++ l2) = lastChar (lastChar prev l1) l2.
Proof.
  revert prev. induction l1 as [|c l1 IH]; intros prev; [reflexivity|].
  rewrite <- app_comm_cons, !lastChar_cons. apply IH.
Qed.

Lemma repeatMatcher_spec (p : ascii -> bool) (k : Cont) (s : list ascii) :
  forall min prev,
    repeatMatcher p min prev s k = true <->
    exists mid rest,
      s = mid ++ rest /\ (min <= List.length mid)%nat /\ allIn p mid
      /\ k (lastChar prev mid) rest = true.
Proof.
  induction s as [|c s IH]; intros min prev; cbn [repeatMatcher].
  - rewrite andb_true_iff, Nat.eqb_eq. split.
    + intros [-> Hk]. exists [], []. repeat split; [lia | constructor | exact Hk].
    + intros (mid & rest & E & Hn & _ & Hk).
      symmetry in E. apply app_eq_nil in E. destruct E as [-> ->].
      simpl in Hn. split; [lia | exact Hk].
  - split.
    + intros H.
      assert (Hcases : (p c = true /\ repeatMatcher p (pred min) (Some c) s k = true)
                       \/ (min = 0%nat /\ k prev (c :: s) = true)).
      { destruct (p c).
        - apply orb_true_iff in H. destruct H as [H|H]; [left; now split|].
          apply andb_true_iff in H. rewrite Nat.eqb_eq in H. now right.
        - apply andb_true_iff in H. rewrite Nat.eqb_eq in H. now right. }
      destruct Hcases as [[Hp Hrec]|[-> Hk]].
      * apply IH in Hrec. destruct Hrec as (mid & rest & -> & Hn & Hall & Hk).
        exists (c :: mid), rest. rewrite lastChar_cons.
        repeat split; [simpl; lia | now constructor | exact Hk].
      * exists [], (c :: s). repeat split; [lia | constructor | exact Hk].
    + intros (mid & rest & E & Hn & Hall & Hk).
      destruct mid as [|c' mid].
      * simpl in E, Hn. subst rest. assert (min = 0%nat) as -> by lia.
        cbn [Nat.eqb andb]. unfold lastChar in Hk. simpl in Hk. rewrite Hk.
        destruct (p c); [apply orb_true_r | reflexivity].
      * injection E as <- ->. inversion Hall as [|? ? Hp Hall']; subst.
        rewrite Hp. apply orb_true_iff. left. apply IH.
        exists mid, rest. rewrite lastChar_cons in Hk.
        repeat split; [simpl in Hn; lia | exact Hall' | exact Hk].
Qed.

Lemma search_spec (r : regex) (s : list ascii) :
  forall prev,
    search r prev s = true <->
    exists pre rest,
      s = pre ++ rest
      /\ matcher r (lastChar prev pre) rest (fun _ _ => true) = true.
Proof.
  induction s as [|c s IH]; intros prev; cbn [search].
  - rewrite orb_false_r. split.
    + intros H. now exists [], [].
    + intros (pre & rest & E & H).
      symmetry in E. apply app_eq_nil in E. destruct E as [-> ->]. exact H.
  - rewrite orb_true_iff. split.
    + intros [H|H].
      * now exists [], (c :: s).
      * apply IH in H. destruct H as (pre & rest & -> & H).
        exists (c :: pre), rest. now rewrite lastChar_cons.
    + intros (pre & rest & E & H). destruct pre as [|c' pre].
      * simpl in E. subst rest. now left.
      * injection E as <- ->. right. apply IH.
        exists pre, rest. now rewrite lastChar_cons in H.
Qed.

Lemma literalI_spec (w : list ascii) (k : Cont) :
  forall prev s,
    matcher (literalI w) prev s k = true <->
    exists mid rest,
      s = mid ++ rest /\ sameCanonical mid w /\ k (lastChar prev mid) rest = true.
Proof.
  induction w as [|ch w IH]; intros prev s; cbn [literalI matcher].
  - split.
    + intros H. exists [], s. repeat split; [constructor | exact H].
    + intros (mid & rest & -> & Hsame & H). inversion Hsame; subst. exact H.
  - unfold chrI. cbn [matcher]. destruct s as [|c s].
    + split; [discriminate|].
      intros (mid & rest & E & Hsame & _). inversion Hsame; subst. discriminate E.
    + rewrite andb_true_iff, Ascii.eqb_eq, IH. split.
      * intros (Hc & mid & rest & -> & Hsame & H).
        exists (c :: mid), rest. rewrite lastChar_cons.
        repeat split; [now constructor | exact H].
      * intros (mid & rest & E & Hsame & H).
        inversion Hsame as [|c' ? mid' ? Hc Hsame']; subst.
        injection E as <- ->. split; [exact Hc|].
        exists mid', rest. now rewrite lastChar_cons in H.
Qed.

(** *** Exhaustive checks over the 256 code units *)

Lemma allAscii_complete (c : ascii) : In c Spec.allAscii.
Proof.
  unfold Spec.allAscii. rewrite <- (ascii_nat_embedding c).
  apply in_map, in_seq. pose proof (nat_ascii_bounded c). lia.
Qed.

Lemma forall_ascii (P : ascii -> bool) :
  forallb P Spec.allAscii = true -> forall c, P c = true.
Proof.
  intros H c. rewrite forallb_forall in H. apply H, allAscii_complete.
Qed.

Lemma caseCheck_all (ch c : ascii) : Spec.caseCheck ch c = true.
Proof.
  revert c. apply forall_ascii. revert ch. apply forall_ascii.
  vm_compute. reflexivity.
Qed.

Lemma canonical_letter (ch c : ascii) :
  Spec.isLetter ch = true ->
  (Str.toUpper c = Str.toUpper ch <-> Str.toLower c = Str.toLower ch).
Proof.
  intros Hl. pose proof (caseCheck_all ch c) as H.
  unfold Spec.caseCheck in H. rewrite Hl in H. cbn [implb] in H.
  apply andb_true_iff in H. destruct H as [H _].
  apply Bool.eqb_prop in H. rewrite <- !Ascii.eqb_eq. now rewrite H.
Qed.

Lemma canonical_letter_word (ch c : ascii) :
  Spec.isLetter ch = true -> Str.toUpper c = Str.toUpper ch ->
  isWordChar c = true.
Proof.
  intros Hl Hc. pose proof (caseCheck_all ch c) as H.
  unfold Spec.caseCheck in H. rewrite Hl in H. cbn [implb] in H.
  apply andb_true_iff in H. destruct H as [_ H].
  apply Ascii.eqb_eq in Hc. now rewrite Hc in H.
Qed.

Lemma tokenChar_spec (c : ascii) : tokenChar c = Spec.isTokenChar c.
Proof.
  revert c.
  assert (H : forall c, Bool.eqb (tokenChar c) (Spec.isTokenChar c) = true).
  { apply forall_ascii. vm_compute. reflexivity. }
  intros c. apply Bool.eqb_prop, H.
Qed.

Lemma xorb_true_neq (a b : bool) : xorb a b = true <-> a <> b.
Proof. destruct a, b; simpl; split; congruence. Qed.

Lemma charBefore_lastChar (l : list ascii) : Spec.charBefore l = lastChar None l.
Proof. reflexivity. Qed.

(** *** The token pattern *)

Lemma tokenPattern_spec (cmd : string) :
  test tokenPattern cmd = true <-> Spec.tokenLike cmd.
Proof.
  unfold test, Spec.tokenLike. rewrite search_spec. split.
  - intros (pre & rest & E & H).
    cbn [tokenPattern matcher] in H.
    apply andb_true_iff in H. destruct H as [Hb1 H].
    apply repeatMatcher_spec in H.
    destruct H as (mid & post & -> & Hn & Hall & Hb2).
    rewrite andb_true_r in Hb2.
    exists pre, mid, post. repeat split; try assumption.
    + revert Hall. apply Forall_impl. intros c. now rewrite tokenChar_spec.
    + unfold Spec.atWordBoundary. rewrite charBefore_lastChar.
      now apply xorb_true_neq.
    + unfold Spec.atWordBoundary.
      rewrite charBefore_lastChar, lastChar_app. now apply xorb_true_neq.
  - intros (pre & mid & post & E & Hn & Hall & Hb1 & Hb2).
    exists pre, (mid ++ post). split; [exact E|].
    cbn [tokenPattern matcher]. apply andb_true_iff. split.
    + apply xorb_true_neq. exact Hb1.
    + apply repeatMatcher_spec. exists mid, post.
      repeat split; try assumption.
      * revert Hall. apply Forall_impl. intros c. now rewrite tokenChar_spec.
      * rewrite andb_true_r. apply xorb_true_neq.
        unfold Spec.atWordBoundary in Hb2.
        now rewrite charBefore_lastChar, lastChar_app in Hb2.
Qed.

(** *** The word patterns *)

Lemma sameCanonical_toLower (w mid : list ascii) :
  Forall (fun ch => Spec.isLetter ch = true) w ->
  (sameCanonical mid w <-> map Str.toLower mid = map Str.toLower w).
Proof.
  intros Hw. revert mid. induction Hw as [|ch w Hch _ IH]; intros mid.
  - split.
    + intros H. inversion H. reflexivity.
    + destruct mid; [constructor | discriminate].
  - split.
    + intros H. inversion H as [|c ? mid' ? Hc Hrest]; subst.
      cbn [map]. f_equal; [now apply canonical_letter | now apply IH].
    + destruct mid as [|c mid]; [discriminate|].
      cbn [map]. intros H. injection H as Hc Hrest.
      constructor; [now apply canonical_letter | now apply IH].
Qed.

Lemma sameCanonical_word (w mid : list ascii) :
  Forall (fun ch => Spec.isLetter ch = true) w ->
  sameCanonical mid w -> allIn isWordChar mid.
Proof.
  intros Hw H. revert Hw.
  induction H as [|c ch mid w Hc _ IH]; intros Hw; [constructor|].
  inversion Hw; subst.
  constructor; [now apply (canonical_letter_word ch) | now apply IH].
Qed.

Lemma wordAt_lastChar (prev : option ascii) (mid : list ascii) :
  mid <> [] -> allIn isWordChar mid -> wordAt (lastChar prev mid) = true.
Proof.
  intros Hne H. revert prev. induction H as [|c mid Hc _ IH]; [congruence|].
  intros prev. rewrite lastChar_cons.
  destruct mid as [|c2 mid]; [exact Hc|]. apply IH. discriminate.
Qed.

Lemma wordAt_head (mid post : list ascii) :
  mid <> [] -> allIn isWordChar mid -> wordAt (hd_error (mid ++ post)) = true.
Proof.
  intros Hne H. destruct H as [|c mid Hc _]; [congruence | exact Hc].
Qed.

Lemma sameCanonical_nonempty (w mid : list ascii) :
  w <> [] -> sameCanonical mid w -> mid <> [].
Proof. intros Hw H. destruct H; congruence. Qed.

Lemma wordPatternI_spec (w cmd : string) :
  Spec.letters (Str.chars w) ->
  (test (wordPatternI w) cmd = true <-> Spec.wholeWord w cmd).
Proof.
  intros [Hne Hw]. unfold test, Spec.wholeWord. rewrite search_spec. split.
  - intros (pre & rest & E & H).
    cbn [wordPatternI matcher] in H.
    apply andb_true_iff in H. destruct H as [Hb1 H].
    apply literalI_spec in H.
    destruct H as (mid & post & -> & Hsame & Hb2).
    rewrite andb_true_r in Hb2.
    pose proof (sameCanonical_nonempty _ _ Hne Hsame) as Hmid.
    pose proof (sameCanonical_word _ _ Hw Hsame) as Hword.
    rewrite (wordAt_head mid post Hmid Hword) in Hb1.
    rewrite (wordAt_lastChar _ mid Hmid Hword) in Hb2.
    exists pre, mid, post. repeat split.
    + exact E.
    + now apply sameCanonical_toLower.
    + rewrite charBefore_lastChar.
      destruct (wordAt (lastChar None pre)); [discriminate Hb1 | reflexivity].
    + destruct (wordAt (hd_error post)); [discriminate Hb2 | reflexivity].
  - intros (pre & mid & post & E & Hsame & Hb1 & Hb2).
    apply (sameCanonical_toLower _ _ Hw) in Hsame.
    pose proof (sameCanonical_nonempty _ _ Hne Hsame) as Hmid.
    pose proof (sameCanonical_word _ _ Hw Hsame) as Hword.
    exists pre, (mid ++ post). split; [exact E|].
    cbn [wordPatternI matcher]. apply andb_true_iff. split.
    + rewrite (wordAt_head mid post Hmid Hword).
      rewrite charBefore_lastChar in Hb1. now rewrite Hb1.
    + apply literalI_spec. exists mid, post. repeat split; [exact Hsame|].
      rewrite (wordAt_lastChar _ mid Hmid Hword), Hb2. reflexivity.
Qed.

Lemma letters_checked (w : string) :
  (negb (List.length (Str.chars w) =? 0)%nat && forallb Spec.isLetter (Str.chars w)) = true ->
  Spec.letters (Str.chars w).
Proof.
  intros H. apply andb_true_iff in H. destruct H as [Hn Hl]. split.
  - intros E. rewrite E in Hn. discriminate Hn.
  - rewrite forallb_forall in Hl. now apply Forall_forall.
Qed.

(** The five literals of [SENSITIVE_PATTERNS] say what the specification
    says in words. *)
Lemma builtin_patterns_spec (cmd : string) :
  existsb (fun pattern => test pattern cmd) History.SENSITIVE_PATTERNS = true
  <-> Spec.builtinSensitive cmd.
Proof.
  unfold History.SENSITIVE_PATTERNS, Spec.builtinSensitive. cbn [existsb].
  rewrite orb_false_r, !orb_true_iff.
  rewrite tokenPattern_spec.
  rewrite !wordPatternI_spec by (apply letters_checked; reflexivity).
  tauto.
Qed.

End RegExpFacts.

(** ** The redaction filter *)

Section Filter.

Context {engine : RegExpEngine}.

Import History.

Lemma testAdditional_total (command patternStr : string) :
  testAdditional command patternStr
  = Ok (match RegExp_new patternStr with
        | Ok pattern => pattern command
        | Thrown _ => false
        end).
Proof.
  unfold testAdditional, tryCatchResult.
  destruct (RegExp_new patternStr); reflexivity.
Qed.

Lemma checkAdditional_total (command : string) (P : list string) :
  checkAdditional command P
  = Ok (existsb (fun source =>
                   match RegExp_new source with
                   | Ok pattern => pattern command
                   | Thrown _ => false
                   end) P).
Proof.
  induction P as [|source P IH]; [reflexivity|].
  cbn [checkAdditional existsb]. rewrite testAdditional_total.
  destruct (RegExp_new source) as [pattern|e]; cbn [orb].
  - destruct (pattern command); [reflexivity | exact IH].
  - exact IH.
Qed.

Lemma isSensitiveCommand_total (command : string) (P : list string) :
  isSensitiveCommand command P
  = Ok (existsb (fun pattern => RegExp.test pattern command) SENSITIVE_PATTERNS
        || existsb (fun source =>
                      match RegExp_new source with
                      | Ok pattern => pattern command
                      | Thrown _ => false
                      end) P).
Proof.
  unfold isSensitiveCommand.
  destruct (existsb _ SENSITIVE_PATTERNS); [reflexivity|].
  apply checkAdditional_total.
Qed.

Lemma caller_patterns_spec (command : string) (P : list string) :
  existsb (fun source =>
             match RegExp_new source with
             | Ok pattern => pattern command
             | Thrown _ => false
             end) P = true
  <-> Spec.callerSensitive command P.
Proof.
  unfold Spec.callerSensitive. rewrite existsb_exists. split.
  - intros (source & Hin & H).
    destruct (RegExp_new source) as [pattern|e] eqn:E; [|discriminate H].
    now exists source, pattern.
  - intros (source & pattern & Hin & E & H).
    exists source. split; [exact Hin|]. now rewrite E.
Qed.

Lemma caller_patterns_filter (command : string) (P : list string) :
  existsb (fun source =>
             match RegExp_new source with
             | Ok pattern => pattern command
             | Thrown _ => false
             end) (filter Spec.compiles P)
  = existsb (fun source =>
               match RegExp_new source with
               | Ok pattern => pattern command
               | Thrown _ => false
               end) P.
Proof.
  induction P as [|source P IH]; [reflexivity|].
  cbn [filter existsb]. unfold Spec.compiles at 1.
  destruct (RegExp_new source) as [pattern|e] eqn:E.
  - cbn [existsb]. now rewrite E, IH.
  - exact IH.
Qed.

(** C5.  For every command and every list of caller patterns the filter
    returns a boolean, and it returns [true] exactly when a built-in rule
    applies (a token-like run of 20 or more alphanumeric, hyphen or
    underscore characters at word boundaries, or a case-insensitive
    whole-word [password], [secret], [token] or [key]) or some caller
    pattern that compiles matches the command. *)
Theorem sensitive_iff_builtin_or_caller (command : string) (P : list string) :
  exists b,
    isSensitiveCommand command P = Ok b
    /\ (b = true <->
        Spec.builtinSensitive command \/ Spec.callerSensitive command P).
Proof.
  eexists. split; [apply isSensitiveCommand_total|].
  rewrite orb_true_iff, RegExpFacts.builtin_patterns_spec, caller_patterns_spec.
  tauto.
Qed.

(** C6.  A caller pattern that does not compile is skipped: the filter
    never throws, and its answer is the one it gives on the sub-list of
    the patterns that compile. *)
Theorem invalid_patterns_are_skipped (command : string) (P : list string) :
  exists b,
    isSensitiveCommand command P = Ok b
    /\ isSensitiveCommand command (filter Spec.compiles P) = Ok b.
Proof.
  eexists. split; [apply isSensitiveCommand_total|].
  rewrite isSensitiveCommand_total. now rewrite caller_patterns_filter.
Qed.

End Filter.

(** ** The store *)

Section Store.

Context {engine : RegExpEngine}.

Import JSON History Claims.

Ltac io :=
  unfold result, after, loadCommandHistory, saveCommandHistory, clearCommandHistory,
    tryCatch, bind, ret, throw, liftResult, existsSync, readFile, mkdir, writeFile,
    settle, putFile, console_error, console_log, Date_now in *;
  cbn [fst snd historyFile pending console clock] in *.

Lemma Array_slice_last {A : Type} (hist : list A) (n : Z) :
  (0 < n)%Z -> Array_slice hist (- n) = skipn (List.length hist - Z.to_nat n) hist.
Proof.
  intros Hn. unfold Array_slice.
  assert ((- n <? 0)%Z = true) as -> by (apply Z.ltb_lt; lia).
  f_equal. lia.
Qed.

Lemma save_fulfilled (hist : list value) (config : HistoryConfig) (w : World) :
  fulfilsNext 2 w ->
  historyFile (after (saveCommandHistory hist config) w) = Some (document hist config)
  /\ console (after (saveCommandHistory hist config) w) = console w
  /\ pending (after (saveCommandHistory hist config) w) = skipn 2 (pending w).
Proof.
  destruct w as [file pend cons clk]. unfold fulfilsNext, document. io.
  destruct pend as [|o1 [|o2 pend]]; cbn; intros H.
  - repeat split.
  - inversion H; subst. repeat split.
  - inversion H as [|? ? H1 H']; subst. inversion H'; subst. repeat split.
Qed.

Lemma snoc_neq {A : Type} (l : list A) (x : A) : l ++ [x] <> l.
Proof.
  intros H. apply (f_equal (@List.length A)) in H.
  rewrite length_app in H. simpl in H. lia.
Qed.

(** "Without I/O error" can be observed: a save logs a failure exactly
    when the environment does not fulfil one of its two calls. *)
Lemma save_silent_iff (hist : list value) (config : HistoryConfig) (w : World) :
  console (after (saveCommandHistory hist config) w) = console w
  <-> fulfilsNext 2 w.
Proof.
  destruct w as [file pend cons clk]. unfold fulfilsNext. io.
  destruct pend as [|[| |n] [|[| |m] pend]]; cbn; split; intros H;
    try reflexivity;
    try (now repeat constructor);
    try (now elim (snoc_neq _ _ H));
    try (inversion H as [|? ? H1 H2]; subst; try discriminate H1;
         inversion H2; subst; discriminate).
Qed.

Lemma load_reads_file (w : World) (data : string) :
  historyFile w = Some data -> fulfilsNext 1 w ->
  result loadCommandHistory w
  = match JSON.parse data with
    | Ok (JArray l) => Ok l
    | _ => Ok []
    end.
Proof.
  destruct w as [file pend cons clk]. unfold fulfilsNext. io.
  intros -> H.
  destruct pend as [|o pend]; cbn in *.
  - destruct (JSON.parse data) as [[| | | | |]|]; reflexivity.
  - inversion H; subst. cbn.
    destruct (JSON.parse data) as [[| | | | |]|]; reflexivity.
Qed.

Lemma load_total (w : World) :
  exists h, result loadCommandHistory w = Ok h.
Proof.
  destruct w as [file pend cons clk]. io.
  destruct file as [data|]; cbn; [|eauto].
  destruct pend as [|[| |n] pend]; cbn; eauto;
    destruct (JSON.parse data) as [[| | | | |]|]; cbn; eauto.
Qed.

Lemma wellFormed_array (l : list value) :
  wellFormedAll l -> wellFormed (JArray l) = true.
Proof. intros H. cbn [wellFormed]. now apply forallb_forall, Forall_forall. Qed.

Lemma Forall_skipn {A : Type} (P : A -> Prop) (n : nat) (l : list A) :
  Forall P l -> Forall P (skipn n l).
Proof.
  intros H. rewrite <- (firstn_skipn n l) in H.
  apply Forall_app in H. tauto.
Qed.

Lemma persisted_document (hist : list value) (w : World) :
  wellFormedAll hist ->
  historyFile w = Some (JSON.stringify (JArray hist) 2) ->
  persisted w = Some hist.
Proof.
  intros Hwf Hfile. unfold persisted. rewrite Hfile.
  now rewrite (JSONFacts.parse_stringify _ 2 (wellFormed_array _ Hwf)).
Qed.

Lemma fulfilsNext_skipn (n m : nat) (w w' : World) :
  fulfilsNext (n + m) w -> pending w' = skipn n (pending w) -> fulfilsNext m w'.
Proof.
  unfold fulfilsNext. intros H ->.
  rewrite Forall_forall in H |- *. intros o Ho. apply H.
  rewrite <- (firstn_skipn n (pending w)) at 1.
  rewrite firstn_app. apply in_or_app. right.
  rewrite length_firstn.
  destruct (Nat.le_gt_cases n (List.length (pending w))) as [Hle|Hgt].
  - replace (n + m - Nat.min n (List.length (pending w)))%nat with m by lia.
    exact Ho.
  - rewrite skipn_all2 in Ho by lia. rewrite firstn_nil in Ho. destruct Ho.
Qed.

(** C1.  When [maxSize] is positive and the directory creation and the
    write are both fulfilled, the backing file holds the text of exactly
    the last [maxSize] entries of the history (all of it when it has no
    more than [maxSize]), in their order, and the persisted sequence has
    at most [maxSize] entries. *)
Theorem save_persists_last_entries
        (hist : list value) (config : HistoryConfig) (w : World) :
  (0 < maxSize config)%Z ->
  wellFormedAll hist ->
  fulfilsNext 2 w ->
  let w' := after (saveCommandHistory hist config) w in
  let kept := lastEntries (maxSize config) hist in
  historyFile w' = Some (JSON.stringify (JArray kept) 2)
  /\ persisted w' = Some kept
  /\ ((maxSize config < Z.of_nat (List.length hist))%Z ->
      Z.of_nat (List.length kept) = maxSize config)
  /\ ((Z.of_nat (List.length hist) <= maxSize config)%Z -> kept = hist)
  /\ (exists dropped, hist = dropped ++ kept)
  /\ (Z.of_nat (List.length kept) <= maxSize config)%Z.
Proof.
  intros Hpos Hwf Hio w' kept.
  destruct (save_fulfilled hist config w Hio) as (Hfile & _ & _).
  unfold document in Hfile. rewrite (Array_slice_last hist _ Hpos) in Hfile.
  fold (lastEntries (maxSize config) hist) in Hfile. fold kept w' in Hfile.
  assert (Hlen : List.length kept
                 = (List.length hist - (List.length hist - Z.to_nat (maxSize config)))%nat).
  { unfold kept, lastEntries. apply length_skipn. }
  repeat split.
  - exact Hfile.
  - apply persisted_document; [|exact Hfile].
    unfold kept, lastEntries. now apply Forall_skipn.
  - intros Hlong. lia.
  - intros Hshort. unfold kept, lastEntries.
    replace (List.length hist - Z.to_nat (maxSize config))%nat with 0%nat by lia.
    reflexivity.
  - exists (firstn (List.length hist - Z.to_nat (maxSize config)) hist).
    unfold kept, lastEntries. now rewrite firstn_skipn.
  - lia.
Qed.

(** C3.  Round trip: when [maxSize] is positive and the calls of [save]
    and of the following [load] are fulfilled, [load] returns the history
    truncated to its last [maxSize] entries. *)
Theorem save_then_load_round_trip
        (hist : list value) (config : HistoryConfig) (w : World) :
  (0 < maxSize config)%Z ->
  wellFormedAll hist ->
  fulfilsNext 3 w ->
  result loadCommandHistory (after (saveCommandHistory hist config) w)
  = Ok (lastEntries (maxSize config) hist).
Proof.
  intros Hpos Hwf Hio.
  assert (Hio2 : fulfilsNext 2 w).
  { unfold fulfilsNext in *. rewrite Forall_forall in Hio |- *.
    intros o Ho. apply Hio.
    destruct (pending w) as [|a [|b [|c l]]]; simpl in *; tauto. }
  destruct (save_fulfilled hist config w Hio2) as (Hfile & _ & Hpend).
  rewrite (load_reads_file _ _ Hfile (fulfilsNext_skipn 2 1 w _ Hio Hpend)).
  unfold document. rewrite (Array_slice_last hist _ Hpos).
  rewrite JSONFacts.parse_stringify; [reflexivity|].
  apply wellFormed_array. now apply Forall_skipn.
Qed.

(** *** Histories the module comes to hold are well formed *)

Lemma load_result_cases (w : World) :
  result loadCommandHistory w = Ok []
  \/ exists data l,
       historyFile w = Some data /\ JSON.parse data = Ok (JArray l)
       /\ result loadCommandHistory w = Ok l.
Proof.
  destruct w as [file pend cons clk]. io.
  destruct file as [data|]; cbn; [|now left].
  destruct pend as [|[| |n] pend]; cbn; try (now left);
    destruct (JSON.parse data) as [[| | | | l |]|] eqn:E; cbn;
      try (now left); right; now exists data, l.
Qed.

Lemma load_wellFormed (w : World) (h : list value) :
  result loadCommandHistory w = Ok h -> wellFormedAll h.
Proof.
  intros H. destruct (load_result_cases w) as [E|(data & l & _ & Hparse & E)];
    rewrite E in H; injection H as <-; [constructor|].
  pose proof (ParsedFacts.parse_wellFormed data _ Hparse) as Hv.
  cbn [wellFormed] in Hv. rewrite forallb_forall in Hv. now apply Forall_forall.
Qed.

Lemma addToHistory_wellFormed
      (command : string) (hist h : list value) (config : HistoryConfig) (w : World) :
  wellFormedAll hist ->
  result (addToHistory command hist config) w = Ok h -> wellFormedAll h.
Proof.
  intros Hwf. unfold addToHistory, result.
  destruct (negb (saveHistory config) || String.eqb (Str.trim command) EmptyString);
    [now intros [= <-]|].
  unfold bind, liftResult. rewrite isSensitiveCommand_total.
  destruct (_ || _); [now intros [= <-]|].
  destruct (truthy _ && _); [now intros [= <-]|].
  unfold Date_now, console_log.
  destruct (saveCommandHistory _ config _) as [[[]|e] w']; [|discriminate].
  intros [= <-]. apply Forall_app. split; [exact Hwf|].
  constructor; [reflexivity | constructor].
Qed.

(** *** [addToHistory] *)

Lemma addToHistory_sensitive
      (command : string) (hist : list value) (config : HistoryConfig) (w : World) :
  isSensitiveCommand command (sensitivePatterns config) = Ok true ->
  addToHistory command hist config w = (Ok hist, w).
Proof.
  intros Hs. unfold addToHistory.
  destruct (negb (saveHistory config) || String.eqb (Str.trim command) EmptyString);
    [reflexivity|].
  unfold bind, liftResult. rewrite Hs. reflexivity.
Qed.

(** C2.  A command the filter classifies as sensitive is not stored:
    [addToHistory] returns the history it was given and leaves the world,
    and with it the backing file, as it was. *)
Theorem sensitive_command_is_not_written
        (command : string) (hist : list value) (config : HistoryConfig) (w : World) :
  isSensitiveCommand command (sensitivePatterns config) = Ok true ->
  result (addToHistory command hist config) w = Ok hist
  /\ after (addToHistory command hist config) w = w
  /\ historyFile (after (addToHistory command hist config) w) = historyFile w.
Proof.
  intros Hs. unfold result, after.
  rewrite (addToHistory_sensitive command hist config w Hs). now repeat split.
Qed.

Lemma lastElement_snoc {A : Type} (l : list A) (x : A) :
  lastElement (l ++ [x]) = Some x.
Proof.
  unfold lastElement. destruct (l ++ [x]) eqn:E.
  - now destruct l.
  - rewrite <- E, length_app. cbn [List.length].
    replace (List.length l + 1 - 1)%nat with (List.length l) by lia.
    now rewrite nth_error_app2, Nat.sub_diag by lia.
Qed.

Lemma duplicate_test (command : string) (hist : list value) :
  truthy (lastElement hist) && strictEqualsString (getCommand (lastElement hist)) command
  = true
  <-> lastCommandIs command hist.
Proof.
  unfold lastCommandIs. split.
  - intros H. apply andb_true_iff in H. destruct H as [_ H].
    destruct (getCommand (lastElement hist)) as [[| | |s| |]|]; try discriminate H.
    cbn in H. apply String.eqb_eq in H. now subst.
  - intros H. rewrite H. cbn [strictEqualsString]. rewrite String.eqb_refl, andb_true_r.
    destruct (lastElement hist) as [[| | | | |]|]; try discriminate H. reflexivity.
Qed.

(** C7.  Adjacent-duplicate suppression: when the last entry of the
    history has exactly the command being added, [addToHistory] returns
    the history unchanged and leaves the world as it was; when saving is
    on, the command is not blank and not sensitive, and differs from the
    command of the last entry (or there is none), the returned history is
    the given one followed by a new entry for the command, stamped with
    the current time, wherever else the command occurs in the history. *)
Theorem adjacent_duplicates_are_suppressed
        (command : string) (hist : list value) (config : HistoryConfig) (w : World) :
  (lastCommandIs command hist ->
   addToHistory command hist config w = (Ok hist, w))
  /\ (saveHistory config = true ->
      Str.trim command <> EmptyString ->
      isSensitiveCommand command (sensitivePatterns config) = Ok false ->
      ~ lastCommandIs command hist ->
      result (addToHistory command hist config) w
      = Ok (hist ++ [entryValue (mkEntry command (clock w))])).
Proof.
  split.
  - intros Hdup. unfold addToHistory.
    destruct (negb (saveHistory config) || String.eqb (Str.trim command) EmptyString);
      [reflexivity|].
    unfold bind, liftResult. rewrite isSensitiveCommand_total.
    destruct (_ || _); [reflexivity|].
    apply duplicate_test in Hdup. rewrite Hdup. reflexivity.
  - intros Hsave Hblank Hs Hnew. unfold addToHistory.
    rewrite Hsave. cbn [negb orb].
    destruct (String.eqb_spec (Str.trim command) EmptyString) as [E|_]; [contradiction|].
    unfold result, bind, liftResult. rewrite Hs.
    destruct (truthy (lastElement hist)
              && strictEqualsString (getCommand (lastElement hist)) command) eqn:E.
    { apply duplicate_test in E. contradiction. }
    unfold Date_now, console_log.
    destruct (saveCommandHistory _ config _) as [[[]|e] w'] eqn:Es; [reflexivity|].
    exfalso. revert Es. io.
    repeat match goal with
           | |- context [match ?x with _ => _ end] => destruct x; cbn
           end; discriminate.
Qed.

(** *** [loadCommandHistory] *)

(** C4.  [loadCommandHistory] never throws, and it returns the empty
    sequence whenever the backing file is absent, cannot be read, holds a
    text that is not JSON, or holds the text of a value that is not an
    array. *)
Theorem load_never_throws (w : World) :
  (exists h, result loadCommandHistory w = Ok h)
  /\ (Unusable w -> result loadCommandHistory w = Ok []).
Proof.
  split; [apply load_total|].
  destruct w as [file pend cons clk].
  intros [Habs | o rest Hp Ho | data e Hf Hparse | data v Hf Hparse Hv];
    io; cbn in *.
  - now subst file.
  - subst pend. destruct file as [data|]; cbn; [|reflexivity].
    destruct o; cbn; [congruence | reflexivity | reflexivity].
  - subst file. cbn.
    destruct pend as [|[| |n] pend]; cbn; try reflexivity; now rewrite Hparse.
  - subst file. cbn.
    destruct pend as [|[| |n] pend]; cbn; try reflexivity; rewrite Hparse;
      destruct v; try reflexivity; now elim (Hv elements).
Qed.

(** The load of [Module History] is the load of [AnyRuntime] at the
    modelled runtime. *)
Lemma loadCommandHistory_modelled (w : World) :
  after (AnyRuntime.loadCommandHistory (rt := AnyRuntime.modelled)) w
  = after loadCommandHistory w
  /\ result (AnyRuntime.loadCommandHistory (rt := AnyRuntime.modelled)) w
     = match result loadCommandHistory w with
       | Ok l => Ok (JArray l)
       | Thrown e => Thrown e
       end.
Proof.
  destruct w as [file pend cons clk].
  unfold AnyRuntime.loadCommandHistory. io.
  destruct file as [data|]; cbn; [|split; reflexivity].
  destruct pend as [|[| |n] pend]; cbn; try (split; reflexivity);
    destruct (JSON.parse data) as [[| | | | |]|]; split; reflexivity.
Qed.

(** What [AnyRuntime.loadCommandHistory] does with a file it could read,
    for any runtime. *)
Lemma load_reads_any_file {rt : AnyRuntime.JsonRuntime} (w : World) (data : string) :
  historyFile w = Some data -> fulfilsNext 1 w ->
  AnyRuntime.loadCommandHistory w
  = match AnyRuntime.JSON_parse data with
    | Ok v =>
        (Ok (if AnyRuntime.Array_isArray v then v else AnyRuntime.emptyArray),
         mkWorld (historyFile w) (tl (pending w)) (console w) (clock w))
    | Thrown e =>
        (Ok AnyRuntime.emptyArray,
         mkWorld (historyFile w) (tl (pending w))
           (console w ++ [ConsoleError "Failed to load command history:" e])
           (clock w))
    end.
Proof.
  destruct w as [file pend cons clk]. unfold fulfilsNext, AnyRuntime.loadCommandHistory.
  io. intros -> H.
  destruct pend as [|o pend]; cbn in *.
  - destruct (AnyRuntime.JSON_parse data); reflexivity.
  - inversion H; subst. cbn.
    destruct (AnyRuntime.JSON_parse data); reflexivity.
Qed.

(** C10.  [loadCommandHistory] does not look at the elements.  Whatever
    the runtime's [JSON.parse] and its values are: when the file is read
    and the parser returns a value that [Array.isArray] accepts, the load
    returns that very value, whatever its elements are; when the parser
    returns any other value, the load returns the empty array. *)
Theorem load_returns_any_array
  {rt : AnyRuntime.JsonRuntime} (w : World) (data : string) :
  historyFile w = Some data -> fulfilsNext 1 w ->
  (forall v, AnyRuntime.JSON_parse data = Ok v ->
             AnyRuntime.Array_isArray v = true ->
             result AnyRuntime.loadCommandHistory w = Ok v)
  /\ (forall v, AnyRuntime.JSON_parse data = Ok v ->
                AnyRuntime.Array_isArray v = false ->
                result AnyRuntime.loadCommandHistory w = Ok AnyRuntime.emptyArray).
Proof.
  intros Hfile Hio. unfold result.
  rewrite (load_reads_any_file w data Hfile Hio).
  split; intros v -> ->; reflexivity.
Qed.

(** *** [clearCommandHistory] *)

Lemma parse_empty_array : JSON.parse (JSON.stringify (JArray []) 0) = Ok (JArray []).
Proof. reflexivity. Qed.

Lemma load_prefix_of_empty_array (w : World) (n : nat) :
  historyFile w = Some (prefix n (JSON.stringify (JArray []) 0)) ->
  result loadCommandHistory w = Ok [].
Proof.
  assert (Hp : prefix n (JSON.stringify (JArray []) 0) = EmptyString
               \/ prefix n (JSON.stringify (JArray []) 0) = "["
               \/ prefix n (JSON.stringify (JArray []) 0) = "[]").
  { destruct n as [|[|n]]; [now left | right; now left | right; right].
    unfold prefix. cbn. now rewrite firstn_nil. }
  destruct w as [file pend cons clk]. io. intros ->.
  destruct Hp as [-> | [-> | ->]];
    destruct pend as [|[| |m] pend]; reflexivity.
Qed.

(** C8, as amended.  [clearCommandHistory] never throws; it does nothing
    when the backing file is absent; when the file exists and the write is
    fulfilled the file holds the empty JSON array; and when the file is
    absent or the write is fulfilled, a following [loadCommandHistory]
    returns the empty sequence. *)
Theorem clear_then_load_is_empty (w : World) :
  result clearCommandHistory w = Ok tt
  /\ (historyFile w = None -> after clearCommandHistory w = w)
  /\ (historyFile w <> None -> fulfilsNext 1 w ->
      historyFile (after clearCommandHistory w)
      = Some (JSON.stringify (JArray []) 0))
  /\ (historyFile w = None \/ fulfilsNext 1 w ->
      result loadCommandHistory (after clearCommandHistory w) = Ok []).
Proof.
  destruct w as [file pend cons clk]. unfold fulfilsNext.
  repeat split.
  - io. destruct file; cbn; [|reflexivity].
    destruct pend as [|[| |n] pend]; reflexivity.
  - io. intros ->. reflexivity.
  - io. intros Hf Hio. destruct file as [old|]; [|congruence]. cbn.
    destruct pend as [|o pend]; [reflexivity|].
    cbn in Hio. inversion Hio; subst. reflexivity.
  - intros [Habs|Hio].
    + cbn in Habs. subst file. io. reflexivity.
    + cbn [pending] in Hio. destruct file as [old|].
      * apply (load_prefix_of_empty_array _ 2).
        io. cbn. destruct pend as [|o pend]; [reflexivity|].
        cbn in Hio. inversion Hio; subst. reflexivity.
      * io. reflexivity.
Qed.

(** *** Failures during a save *)

(** C9, as amended.  A save overwrites the whole file, but not
    atomically: when both calls are fulfilled the file holds exactly the
    new document; in every case it holds its previous contents or a
    prefix of the new document, which may be a partly written one. *)
Theorem save_overwrites_not_atomically
        (hist : list value) (config : HistoryConfig) (w : World) :
  let w' := after (saveCommandHistory hist config) w in
  (fulfilsNext 2 w -> historyFile w' = Some (document hist config))
  /\ (historyFile w' = historyFile w
      \/ exists part, historyFile w' = Some part
                      /\ isPrefixOf part (document hist config)).
Proof.
  intros w'. split.
  - intros Hio. now destruct (save_fulfilled hist config w Hio) as (H & _).
  - subst w'. destruct w as [file pend cons clk]. unfold document, isPrefixOf. io.
    set (doc := JSON.stringify _ 2).
    assert (Hall : doc = prefix (List.length (Str.chars doc)) doc).
    { unfold prefix. now rewrite firstn_all, JSONFacts.ofChars_chars. }
    destruct pend as [|[| |n] [|[| |m] pend]]; cbn; eauto.
Qed.

End Store.

(** ** The properties at concrete inputs *)

Section Instances.

Import JSON History Claims Examples Bound Texts.

Lemma save_persists_last_entries_witness :
  historyFile (after (saveCommandHistory threeEntries keepTwo) freshWorld)
  = Some (JSON.stringify
            (JArray [entry "ls" 1700000000001; entry "make test" 1700000000002]) 2)
  /\ persisted (after (saveCommandHistory threeEntries keepTwo) freshWorld)
     = Some [entry "ls" 1700000000001; entry "make test" 1700000000002].
Proof.
  destruct (save_persists_last_entries threeEntries keepTwo freshWorld)
    as (Hfile & Hpersisted & _).
  - cbn. lia.
  - repeat constructor.
  - constructor.
  - split; [exact Hfile | exact Hpersisted].
Defined.

(** C1 as stated fails when the environment rejects the write: the save
    returns normally, and the file keeps the three entries it held, two
    more than [maxSize]. *)
Lemma save_does_not_bound_a_kept_file :
  ~ boundedAfterSave threeEntries keepOne readOnlyWorld.
Proof.
  unfold boundedAfterSave. intros H.
  destruct (H eq_refl) as [_ Hbound].
  specialize (Hbound threeEntries eq_refl).
  vm_compute in Hbound. apply Hbound. reflexivity.
Qed.

(** What the rejected save leaves: the file as it was, one failure
    logged, and nothing thrown. *)
Example rejected_save_keeps_long_file :
  result (saveCommandHistory threeEntries keepOne) readOnlyWorld = Ok tt
  /\ historyFile (after (saveCommandHistory threeEntries keepOne) readOnlyWorld)
     = Some threeEntryFile
  /\ persisted (after (saveCommandHistory threeEntries keepOne) readOnlyWorld)
     = Some threeEntries
  /\ List.length (console (after (saveCommandHistory threeEntries keepOne) readOnlyWorld))
     = 1%nat.
Proof. repeat split; vm_compute; reflexivity. Qed.

Lemma save_then_load_round_trip_witness :
  result loadCommandHistory (after (saveCommandHistory threeEntries keepTwo) freshWorld)
  = Ok [entry "ls" 1700000000001; entry "make test" 1700000000002].
Proof.
  apply (save_then_load_round_trip threeEntries keepTwo freshWorld).
  - cbn. lia.
  - repeat constructor.
  - constructor.
Defined.

Lemma sensitive_command_is_not_written_witness :
  result (addToHistory (engine := literalEngine) "export TOKEN=abc123"
            [entry "ls" 1700000000001] DEFAULT_HISTORY_CONFIG) storedWorld
  = Ok [entry "ls" 1700000000001]
  /\ after (addToHistory (engine := literalEngine) "export TOKEN=abc123"
              [entry "ls" 1700000000001] DEFAULT_HISTORY_CONFIG) storedWorld
     = storedWorld
  /\ historyFile
       (after (addToHistory (engine := literalEngine) "export TOKEN=abc123"
                 [entry "ls" 1700000000001] DEFAULT_HISTORY_CONFIG) storedWorld)
     = Some oneEntryFile.
Proof.
  apply (sensitive_command_is_not_written (engine := literalEngine)).
  vm_compute. reflexivity.
Defined.

Lemma adjacent_duplicates_are_suppressed_witness :
  addToHistory (engine := literalEngine) "ls"
    [entry "git status" 1700000000000; entry "ls" 1700000000001]
    DEFAULT_HISTORY_CONFIG storedWorld
  = (Ok [entry "git status" 1700000000000; entry "ls" 1700000000001], storedWorld)
  /\ result (addToHistory (engine := literalEngine) "ls"
               [entry "ls" 1700000000001; entry "git status" 1700000000002]
               DEFAULT_HISTORY_CONFIG) storedWorld
     = Ok [entry "ls" 1700000000001; entry "git status" 1700000000002;
           entry "ls" 1700000000003].
Proof.
  split.
  - apply (proj1 (adjacent_duplicates_are_suppressed (engine := literalEngine)
                    "ls" [entry "git status" 1700000000000; entry "ls" 1700000000001]
                    DEFAULT_HISTORY_CONFIG storedWorld)).
    reflexivity.
  - apply (proj2 (adjacent_duplicates_are_suppressed (engine := literalEngine)
                    "ls" [entry "ls" 1700000000001; entry "git status" 1700000000002]
                    DEFAULT_HISTORY_CONFIG storedWorld)).
    + reflexivity.
    + vm_compute. discriminate.
    + vm_compute. reflexivity.
    + vm_compute. discriminate.
Defined.

Lemma load_never_throws_witness :
  result loadCommandHistory notJsonWorld = Ok []
  /\ result loadCommandHistory objectWorld = Ok []
  /\ result loadCommandHistory freshWorld = Ok []
  /\ result loadCommandHistory rejectingWorld = Ok [].
Proof.
  split; [|split; [|split]].
  - apply (proj2 (load_never_throws notJsonWorld)).
    apply (NotJson notJsonWorld "not json" (SyntaxError "Unexpected token in JSON"));
      reflexivity.
  - apply (proj2 (load_never_throws objectWorld)).
    apply (NotAnArray objectWorld "{}" (JObject [])); [reflexivity | reflexivity |].
    discriminate.
  - apply (proj2 (load_never_throws freshWorld)).
    apply FileAbsent. reflexivity.
  - apply (proj2 (load_never_throws rejectingWorld)).
    apply (FileUnreadable rejectingWorld Rejects []); [reflexivity | discriminate].
Defined.

Lemma load_returns_any_array_witness :
  result (AnyRuntime.loadCommandHistory (rt := Lexical.runtime)) wideArrayWorld
  = Ok (Lexical.TArray
          [Lexical.TNumber "1e3"; Lexical.TNumber "1.5"; Lexical.TString "\u20ac";
           Lexical.TNumber "9007199254740993"])
  /\ result (AnyRuntime.loadCommandHistory (rt := Lexical.runtime)) fractionWorld
     = Ok (Lexical.TArray [])
  /\ result (AnyRuntime.loadCommandHistory (rt := AnyRuntime.modelled)) mixedArrayWorld
     = Ok (JArray [JNumber 1; JNull; JArray [JBool true]; JObject []])
  /\ result (AnyRuntime.loadCommandHistory (rt := AnyRuntime.modelled)) objectWorld
     = Ok (JArray []).
Proof.
  split; [|split; [|split]].
  - apply (proj1 (load_returns_any_array (rt := Lexical.runtime)
                    wideArrayWorld wideArrayFile eq_refl ltac:(constructor)));
      reflexivity.
  - apply (proj2 (load_returns_any_array (rt := Lexical.runtime)
                    fractionWorld "1.5" eq_refl ltac:(constructor))
             (Lexical.TNumber "1.5"));
      reflexivity.
  - apply (proj1 (load_returns_any_array (rt := AnyRuntime.modelled)
                    mixedArrayWorld "[1, null, [true], {}]" eq_refl ltac:(constructor)));
      reflexivity.
  - apply (proj2 (load_returns_any_array (rt := AnyRuntime.modelled)
                    objectWorld "{}" eq_refl ltac:(constructor))
             (JObject []));
      reflexivity.
Defined.

Lemma clear_then_load_is_empty_witness :
  historyFile (after clearCommandHistory storedWorld) = Some "[]"
  /\ result loadCommandHistory (after clearCommandHistory storedWorld) = Ok []
  /\ after clearCommandHistory freshWorld = freshWorld.
Proof.
  destruct (clear_then_load_is_empty storedWorld) as (_ & _ & Hfile & Hload).
  destruct (clear_then_load_is_empty freshWorld) as (_ & Hnoop & _ & _).
  split; [|split].
  - apply Hfile; [discriminate | constructor].
  - apply Hload. right. constructor.
  - apply Hnoop. reflexivity.
Defined.

(** C8 as stated fails when the environment rejects the write: the file
    keeps its entry and the following [load] returns it. *)
Lemma clear_fails_when_write_rejected : ~ clearResets rejectingWorld.
Proof.
  unfold clearResets. intros (_ & _ & _ & Hload).
  vm_compute in Hload. discriminate Hload.
Qed.

Lemma save_overwrites_not_atomically_witness :
  historyFile (after (saveCommandHistory threeEntries keepTwo) storedWorld)
  = Some (document threeEntries keepTwo).
Proof.
  apply (proj1 (save_overwrites_not_atomically threeEntries keepTwo storedWorld)).
  constructor.
Defined.

(** C9 as stated fails when the write is interrupted: the file then holds
    the first five characters of the new document. *)
Lemma save_is_not_atomic : ~ atomicSave threeEntries keepTwo fullDiskWorld.
Proof.
  unfold atomicSave. intros [H|H]; vm_compute in H; discriminate H.
Qed.

(** What the interrupted save leaves: neither the old file nor the new
    document, but the first five characters of the latter. *)
Example interrupted_save_leaves_prefix :
  option_map Str.chars
    (historyFile (after (saveCommandHistory threeEntries keepTwo) fullDiskWorld))
  = Some ["["%char; newline; " "%char; " "%char; "{"%char]
  /\ result (saveCommandHistory threeEntries keepTwo) fullDiskWorld = Ok tt
  /\ result loadCommandHistory
       (after (saveCommandHistory threeEntries keepTwo) fullDiskWorld) = Ok [].
Proof. repeat split; vm_compute; reflexivity. Qed.

(** What the rejected [clear] leaves: the entry is still there. *)
Example rejected_clear_keeps_entries :
  result clearCommandHistory rejectingWorld = Ok tt
  /\ historyFile (after clearCommandHistory rejectingWorld) = Some oneEntryFile
  /\ result loadCommandHistory (after clearCommandHistory rejectingWorld)
     = Ok [entry "ls" 1700000000001].
Proof. repeat split; vm_compute; reflexivity. Qed.

(** *** The examples of the specification *)

Example filter_token_assignment :
  isSensitiveCommand (engine := literalEngine) "export TOKEN=abc123" [] = Ok true.
Proof. vm_compute. reflexivity. Qed.

Example filter_plain_listing :
  isSensitiveCommand (engine := literalEngine) "ls -la" [] = Ok false.
Proof. vm_compute. reflexivity. Qed.

Example filter_caller_pattern :
  isSensitiveCommand (engine := literalEngine) "run x" ["x"] = Ok true.
Proof. vm_compute. reflexivity. Qed.

(** An unterminated class does not compile; the pattern after it is still
    tried. *)
Example filter_invalid_pattern :
  isSensitiveCommand (engine := literalEngine) "run x" ["["] = Ok false
  /\ isSensitiveCommand (engine := literalEngine) "run x" ["["; "x"] = Ok true.
Proof. split; vm_compute; reflexivity. Qed.

(** Twenty characters of the class between word boundaries: letters with
    hyphens inside match, hyphens alone do not, and an underscore joins
    [key] to its neighbour. *)
Example filter_boundaries :
  isSensitiveCommand (engine := literalEngine) "cat a------------------b" [] = Ok true
  /\ isSensitiveCommand (engine := literalEngine) "cat --------------------" []
     = Ok false
  /\ isSensitiveCommand (engine := literalEngine) "cat my_key" [] = Ok false
  /\ isSensitiveCommand (engine := literalEngine) "cat my-Key" [] = Ok true.
Proof. repeat split; vm_compute; reflexivity. Qed.

Example append_blank_or_disabled :
  addToHistory (engine := literalEngine) "   " threeEntries DEFAULT_HISTORY_CONFIG
    storedWorld = (Ok threeEntries, storedWorld)
  /\ addToHistory (engine := literalEngine) "ls" threeEntries (mkConfig 1000 false [])
       storedWorld = (Ok threeEntries, storedWorld).
Proof. split; reflexivity. Qed.

(** From an empty store: [git status], [git status] again, a command with
    a secret, then [ls]; two entries are persisted, in that order. *)
Example end_to_end :
  let session :=
    (h1 <- addToHistory (engine := literalEngine) "git status" []
             DEFAULT_HISTORY_CONFIG ;;
     h2 <- addToHistory (engine := literalEngine) "git status" h1
             DEFAULT_HISTORY_CONFIG ;;
     h3 <- addToHistory (engine := literalEngine) "export SECRET=xyz" h2
             DEFAULT_HISTORY_CONFIG ;;
     addToHistory (engine := literalEngine) "ls" h3 DEFAULT_HISTORY_CONFIG)%io in
  result session freshWorld
  = Ok [entry "git status" 1700000000003; entry "ls" 1700000000003]
  /\ persisted (after session freshWorld)
     = Some [entry "git status" 1700000000003; entry "ls" 1700000000003].
Proof. split; vm_compute; reflexivity. Qed.

(** [slice(-0)] is [slice(0)]: with [maxSize] zero nothing is dropped, so
    the bound on the persisted length needs [maxSize] positive. *)
Remark save_with_zero_maxSize_keeps_all :
  persisted (after (saveCommandHistory threeEntries (mkConfig 0 true [])) freshWorld)
  = Some threeEntries.
Proof. vm_compute. reflexivity. Qed.

(** The texts [JSON.stringify] writes for a history. *)
Example document_text :
  Str.chars (document [entry "ls" 1] keepTwo)
  = Str.chars "[" ++ [newline] ++ Str.chars "  {" ++ [newline]
    ++ Str.chars "    " ++ quote "command" ++ Str.chars ": " ++ quote "ls"
    ++ Str.chars "," ++ [newline]
    ++ Str.chars "    " ++ quote "timestamp" ++ Str.chars ": 1" ++ [newline]
    ++ Str.chars "  }" ++ [newline] ++ Str.chars "]".
Proof. vm_compute. reflexivity. Qed.

End Instances.

(** ** Further properties of [addToHistory] *)

Section Appending.

Context {engine : RegExpEngine}.

Import JSON History Claims Session.

Ltac run_io :=
  unfold result, after, loadCommandHistory, saveCommandHistory, clearCommandHistory,
    tryCatch, bind, ret, throw, liftResult, existsSync, readFile, mkdir, writeFile,
    settle, putFile, console_error, console_log, Date_now, logged in *;
  cbn [fst snd historyFile pending console clock] in *.

Lemma save_total (hist : list value) (config : HistoryConfig) (w : World) :
  result (saveCommandHistory hist config) w = Ok tt.
Proof.
  destruct w as [file pend cons clk]. run_io.
  destruct pend as [|[| |n] [|[| |m] pend]]; reflexivity.
Qed.

Lemma classified_spec (command : string) (P : list string) :
  isSensitiveCommand command P = Ok (classified command P).
Proof.
  unfold classified. now rewrite isSensitiveCommand_total.
Qed.

Lemma duplicate_lastCommand (command : string) (hist : list value) :
  truthy (lastElement hist) && strictEqualsString (getCommand (lastElement hist)) command
  = match lastCommand hist with
    | Some c => String.eqb c command
    | None => false
    end.
Proof.
  unfold lastCommand.
  destruct (lastElement hist) as [[| | | | |m]|]; try reflexivity;
    try (cbn; now rewrite andb_false_r).
  - cbn [getCommand truthy andb]. destruct (lookup "command" m) as [[| | | | |]|];
      reflexivity.
Qed.

Lemma lastCommandIs_lastCommand (command : string) (hist : list value) :
  lastCommandIs command hist <-> lastCommand hist = Some command.
Proof.
  unfold lastCommandIs, lastCommand. split.
  - intros ->. reflexivity.
  - destruct (getCommand (lastElement hist)) as [[| | |s| |]|]; try discriminate.
    now intros [= ->].
Qed.

(** The two ways [addToHistory] can go. *)
Lemma addToHistory_skips
      (command : string) (hist : list value) (config : HistoryConfig) (w : World) :
  storable config (lastCommand hist) command = false ->
  addToHistory command hist config w = (Ok hist, w).
Proof.
  unfold storable, addToHistory. intros H.
  destruct (saveHistory config); [|reflexivity]. cbn [negb orb andb] in *.
  destruct (String.eqb (Str.trim command) EmptyString); [reflexivity|].
  cbn [negb andb] in H. unfold bind, liftResult. rewrite classified_spec.
  destruct (classified command (sensitivePatterns config)); [reflexivity|].
  cbn [negb andb] in H. rewrite duplicate_lastCommand.
  destruct (match lastCommand hist with Some c => String.eqb c command | None => false end);
    [reflexivity | discriminate H].
Qed.

Lemma addToHistory_stores
      (command : string) (hist : list value) (config : HistoryConfig) (w : World) :
  storable config (lastCommand hist) command = true ->
  addToHistory command hist config w
  = (Ok (hist ++ [newEntry command w]),
     after (saveCommandHistory (hist ++ [newEntry command w]) config) (logged hist w)).
Proof.
  unfold storable, addToHistory. intros H.
  apply andb_true_iff in H. destruct H as [H Hdup].
  apply andb_true_iff in H. destruct H as [H Hsens].
  apply andb_true_iff in H. destruct H as [Hsave Hblank].
  rewrite Hsave. cbn [negb orb].
  apply negb_true_iff in Hblank, Hsens, Hdup. rewrite Hblank.
  unfold bind at 1, liftResult. rewrite classified_spec, Hsens.
  rewrite duplicate_lastCommand, Hdup.
  unfold bind at 1, Date_now. unfold bind at 1, console_log.
  fold (logged hist w). unfold newEntry, bind, ret, after.
  pose proof (save_total (hist ++ [entryValue (mkEntry command (clock w))]) config
                (logged hist w)) as Hs.
  unfold result in Hs.
  destruct (saveCommandHistory _ config (logged hist w)) as [r w']. cbn in Hs |- *.
  now rewrite Hs.
Qed.

Lemma due_storable (config : HistoryConfig) (hist : list value) (command : string) :
  due config hist command <-> storable config (lastCommand hist) command = true.
Proof.
  unfold due, storable. rewrite !andb_true_iff, !negb_true_iff.
  rewrite lastCommandIs_lastCommand, classified_spec.
  split.
  - intros (Hs & Hb & Hc & Hd). repeat split.
    + exact Hs.
    + now apply String.eqb_neq.
    + now injection Hc.
    + destruct (lastCommand hist) as [c|]; [|reflexivity].
      apply String.eqb_neq. intros ->. now apply Hd.
  - intros (((Hs & Hb) & Hc) & Hd). repeat split.
    + exact Hs.
    + now apply String.eqb_neq.
    + now rewrite Hc.
    + intros E. rewrite E, String.eqb_refl in Hd. discriminate Hd.
Qed.

Lemma trimStart_blank (l : list ascii) :
  Forall (fun c => Str.isTrimSpace c = true) l -> Str.trimStart l = [].
Proof.
  induction 1 as [|c l Hc _ IH]; [reflexivity|].
  cbn [Str.trimStart]. now rewrite Hc.
Qed.

Lemma trim_blank (command : string) :
  blank command -> Str.trim command = EmptyString.
Proof.
  intros H. unfold Str.trim. now rewrite (trimStart_blank _ H).
Qed.

Lemma lastCommand_snoc (hist : list value) (command : string) (w : World) :
  lastCommand (hist ++ [newEntry command w]) = Some command.
Proof.
  unfold lastCommand. rewrite lastElement_snoc. reflexivity.
Qed.

Lemma storable_after_itself (config : HistoryConfig) (command : string) :
  storable config (Some command) command = false.
Proof.
  unfold storable. now rewrite String.eqb_refl, andb_false_r.
Qed.

Lemma fulfilsNext_logged (n : nat) (hist : list value) (w : World) :
  fulfilsNext n (logged hist w) <-> fulfilsNext n w.
Proof. reflexivity. Qed.

Lemma save_rejected (hist : list value) (config : HistoryConfig) (w : World) :
  rejectsSave w ->
  historyFile (after (saveCommandHistory hist config) w) = historyFile w
  /\ exists err,
       console (after (saveCommandHistory hist config) w)
       = console w ++ [ConsoleError "Failed to save command history:" err].
Proof.
  destruct w as [file pend cons clk]. unfold rejectsSave. cbn [pending].
  intros [(o & rest & -> & Ho) | (rest & ->)]; run_io.
  - destruct o; [congruence | |]; cbn; eauto.
  - cbn. eauto.
Qed.

(** X1.  [addToHistory] never throws.  It returns the history it was
    given, or that history followed by one new entry for the command; the
    latter only when saving is on and the command is not blank, not
    sensitive and not the command of the last entry.  Nothing is ever
    removed or reordered. *)
Theorem addToHistory_result_shape
        (command : string) (hist : list value) (config : HistoryConfig) (w : World) :
  exists h,
    result (addToHistory command hist config) w = Ok h
    /\ (h = hist
        \/ (h = hist ++ [newEntry command w] /\ due config hist command)).
Proof.
  destruct (storable config (lastCommand hist) command) eqn:E.
  - exists (hist ++ [newEntry command w]). unfold result.
    rewrite (addToHistory_stores _ _ _ _ E). split; [reflexivity|].
    right. split; [reflexivity|]. now apply due_storable.
  - exists hist. unfold result. rewrite (addToHistory_skips _ _ _ _ E).
    split; [reflexivity | now left].
Qed.

(** X2.  When saving is switched off, or the command consists of white
    space only (TAB, LF, VT, FF, CR, space, no-break space) or is empty,
    [addToHistory] returns the history unchanged and touches nothing. *)
Theorem blank_or_disabled_is_ignored
        (command : string) (hist : list value) (config : HistoryConfig) (w : World) :
  saveHistory config = false \/ blank command ->
  addToHistory command hist config w = (Ok hist, w).
Proof.
  intros H. apply addToHistory_skips. unfold storable.
  destruct H as [-> | H]; [reflexivity|].
  rewrite (trim_blank _ H). cbn. now rewrite andb_false_r.
Qed.

(** X3.  If [addToHistory] returns the history it was given, it wrote
    nothing: the backing file, the console and the rest of the world are
    as before. *)
Theorem unchanged_history_untouched_world
        (command : string) (hist : list value) (config : HistoryConfig) (w : World) :
  result (addToHistory command hist config) w = Ok hist ->
  after (addToHistory command hist config) w = w.
Proof.
  unfold result, after.
  destruct (storable config (lastCommand hist) command) eqn:E.
  - rewrite (addToHistory_stores _ _ _ _ E). cbn [fst].
    intros [= H]. now elim (snoc_neq _ _ H).
  - now rewrite (addToHistory_skips _ _ _ _ E).
Qed.

(** X4.  Adding the same command again is a no-op: whatever the first
    call returned, a second call with the same command and configuration
    on that result returns it unchanged and touches nothing, in any
    world. *)
Theorem repeated_command_is_ignored
        (command : string) (hist h1 : list value) (config : HistoryConfig)
        (w w' : World) :
  result (addToHistory command hist config) w = Ok h1 ->
  addToHistory command h1 config w' = (Ok h1, w').
Proof.
  unfold result.
  destruct (storable config (lastCommand hist) command) eqn:E.
  - rewrite (addToHistory_stores _ _ _ _ E). cbn [fst]. intros [= <-].
    apply addToHistory_skips. rewrite lastCommand_snoc.
    apply storable_after_itself.
  - rewrite (addToHistory_skips _ _ _ _ E). cbn [fst]. intros [= <-].
    now apply addToHistory_skips.
Qed.

(** X5.  When a new entry is due and the save is fulfilled, the returned
    history is the given one plus the new entry, not trimmed, while the
    file holds only its last [maxSize] entries; the console received one
    record, with the history as it was before the call. *)
Theorem append_persists_trimmed_returns_untrimmed
        (command : string) (hist : list value) (config : HistoryConfig) (w : World) :
  due config hist command ->
  (0 < maxSize config)%Z ->
  wellFormedAll hist ->
  fulfilsNext 2 w ->
  let w' := after (addToHistory command hist config) w in
  result (addToHistory command hist config) w = Ok (hist ++ [newEntry command w])
  /\ persisted w' = Some (lastEntries (maxSize config) (hist ++ [newEntry command w]))
  /\ console w' = console w ++ [ConsoleLog "Adding to history:" hist].
Proof.
  intros Hdue Hpos Hwf Hio w'. subst w'.
  apply due_storable in Hdue. unfold result, after.
  rewrite (addToHistory_stores _ _ _ _ Hdue). cbn [fst snd].
  apply (fulfilsNext_logged 2 hist) in Hio.
  destruct (save_fulfilled (hist ++ [newEntry command w]) config _ Hio)
    as (Hfile & Hcons & _).
  split; [reflexivity|]. split; [|exact Hcons].
  unfold document in Hfile. rewrite (Array_slice_last _ _ Hpos) in Hfile.
  apply persisted_document; [|exact Hfile].
  apply Forall_skipn, Forall_app. split; [exact Hwf|].
  constructor; [reflexivity | constructor].
Qed.

(** X6.  Append, then load: when a new entry is due and the three calls
    are fulfilled, a following [loadCommandHistory] returns the last
    [maxSize] entries of the history [addToHistory] returned. *)
Theorem append_then_load
        (command : string) (hist : list value) (config : HistoryConfig) (w : World) :
  due config hist command ->
  (0 < maxSize config)%Z ->
  wellFormedAll hist ->
  fulfilsNext 3 w ->
  result loadCommandHistory (after (addToHistory command hist config) w)
  = Ok (lastEntries (maxSize config) (hist ++ [newEntry command w])).
Proof.
  intros Hdue Hpos Hwf Hio.
  apply due_storable in Hdue. unfold after at 1.
  rewrite (addToHistory_stores _ _ _ _ Hdue). cbn [snd].
  assert (Hio2 : fulfilsNext 2 (logged hist w)).
  { unfold fulfilsNext in *. cbn [logged pending]. rewrite Forall_forall in Hio |- *.
    intros o Ho. apply Hio.
    destruct (pending w) as [|a [|b [|c l]]]; simpl in *; tauto. }
  destruct (save_fulfilled (hist ++ [newEntry command w]) config _ Hio2)
    as (Hfile & _ & Hpend).
  rewrite (load_reads_file _ _ Hfile
             (fulfilsNext_skipn 2 1 (logged hist w) _ Hio Hpend)).
  unfold document. rewrite (Array_slice_last _ _ Hpos).
  rewrite JSONFacts.parse_stringify; [reflexivity|].
  apply wellFormed_array, Forall_skipn, Forall_app. split; [exact Hwf|].
  constructor; [reflexivity | constructor].
Qed.

(** X7.  When a new entry is due but the environment rejects the save
    before anything is written, [addToHistory] still returns the longer
    history; the file is as it was, and the console holds the record of
    the call followed by the record of the failure. *)
Theorem append_survives_rejected_save
        (command : string) (hist : list value) (config : HistoryConfig) (w : World) :
  due config hist command ->
  rejectsSave w ->
  let w' := after (addToHistory command hist config) w in
  result (addToHistory command hist config) w = Ok (hist ++ [newEntry command w])
  /\ historyFile w' = historyFile w
  /\ exists err,
       console w'
       = console w ++ [ConsoleLog "Adding to history:" hist;
                       ConsoleError "Failed to save command history:" err].
Proof.
  intros Hdue Hrej w'. subst w'.
  apply due_storable in Hdue. unfold result, after.
  rewrite (addToHistory_stores _ _ _ _ Hdue). cbn [fst snd].
  assert (Hrej' : rejectsSave (logged hist w)) by exact Hrej.
  destruct (save_rejected (hist ++ [newEntry command w]) config _ Hrej')
    as (Hfile & err & Hcons).
  split; [reflexivity|]. split; [exact Hfile|].
  exists err. rewrite Hcons. cbn [logged console]. now rewrite <- app_assoc.
Qed.

End Appending.

(** ** Further properties of saving, loading and clearing *)

Section Persistence.

Import JSON History Claims Session.

Ltac run_io :=
  unfold result, after, loadCommandHistory, saveCommandHistory, clearCommandHistory,
    tryCatch, bind, ret, throw, liftResult, existsSync, readFile, mkdir, writeFile,
    settle, putFile, console_error, console_log, Date_now, logged in *;
  cbn [fst snd historyFile pending console clock] in *.

Lemma not_fulfilsNext_2 (w : World) :
  ~ fulfilsNext 2 w ->
  (exists o rest, pending w = o :: rest /\ o <> Fulfils)
  \/ (exists o rest, pending w = Fulfils :: o :: rest /\ o <> Fulfils).
Proof.
  unfold fulfilsNext. intros H.
  destruct (pending w) as [|o1 [|o2 rest]].
  - elim H. constructor.
  - left. exists o1, []. split; [reflexivity|].
    intros ->. apply H. repeat constructor.
  - destruct o1; [| left; eexists _, _; split; [reflexivity | discriminate]
                   | left; eexists _, _; split; [reflexivity | discriminate]].
    right. exists o2, rest. split; [reflexivity|].
    intros ->. apply H. repeat constructor.
Qed.

Lemma save_failed_logs (hist : list value) (config : HistoryConfig) (w : World) :
  ~ fulfilsNext 2 w ->
  exists err,
    console (after (saveCommandHistory hist config) w)
    = console w ++ [ConsoleError "Failed to save command history:" err].
Proof.
  intros H. destruct (not_fulfilsNext_2 w H) as [(o & rest & E & Ho)|(o & rest & E & Ho)];
    destruct w as [file pend cons clk]; cbn [pending] in E; subst pend; run_io.
  - destruct o; [congruence | |]; cbn; eauto.
  - destruct o; [congruence | |]; cbn; eauto.
Qed.

(** X8.  [saveCommandHistory] never throws.  It logs nothing when its two
    calls are fulfilled, and exactly one failure record otherwise; when
    the failure comes before anything is written, the file is as it
    was. *)
Theorem save_never_throws_and_logs_failures
        (hist : list value) (config : HistoryConfig) (w : World) :
  result (saveCommandHistory hist config) w = Ok tt
  /\ (fulfilsNext 2 w ->
      console (after (saveCommandHistory hist config) w) = console w)
  /\ (~ fulfilsNext 2 w ->
      exists err,
        console (after (saveCommandHistory hist config) w)
        = console w ++ [ConsoleError "Failed to save command history:" err])
  /\ (rejectsSave w ->
      historyFile (after (saveCommandHistory hist config) w) = historyFile w).
Proof.
  split; [apply save_total|]. split; [|split].
  - intros H. now destruct (save_fulfilled hist config w H) as (_ & Hc & _).
  - apply save_failed_logs.
  - intros H. now destruct (save_rejected hist config w H) as (Hf & _).
Qed.

Lemma Array_slice_from {A : Type} (arr : list A) (start : Z) :
  (0 <= start)%Z -> Array_slice arr start = skipn (Z.to_nat start) arr.
Proof.
  intros H. unfold Array_slice.
  assert ((start <? 0)%Z = false) as -> by (apply Z.ltb_ge; lia).
  destruct (Z.le_gt_cases start (Z.of_nat (List.length arr))) as [Hle|Hgt].
  - now rewrite Z.min_l by lia.
  - rewrite Z.min_r by lia. rewrite !skipn_all2 by lia. reflexivity.
Qed.

(** X9.  With [maxSize] zero or negative the save does not bound the
    file: [slice(-maxSize)] then drops the first [-maxSize] entries and
    keeps all the others, so with [maxSize = 0] the whole history is
    persisted, however long. *)
Theorem save_with_nonpositive_maxSize
        (hist : list value) (config : HistoryConfig) (w : World) :
  (maxSize config <= 0)%Z ->
  wellFormedAll hist ->
  fulfilsNext 2 w ->
  persisted (after (saveCommandHistory hist config) w)
  = Some (skipn (Z.to_nat (- maxSize config)) hist).
Proof.
  intros Hn Hwf Hio.
  destruct (save_fulfilled hist config w Hio) as (Hfile & _ & _).
  unfold document in Hfile. rewrite Array_slice_from in Hfile by lia.
  apply persisted_document; [|exact Hfile]. now apply Forall_skipn.
Qed.

Lemma load_keeps_file (w : World) :
  historyFile (after loadCommandHistory w) = historyFile w
  /\ clock (after loadCommandHistory w) = clock w
  /\ pending (after loadCommandHistory w)
     = match historyFile w with
       | Some _ => skipn 1 (pending w)
       | None => pending w
       end.
Proof.
  destruct w as [file pend cons clk]. run_io.
  destruct file as [data|]; cbn; [|repeat split].
  destruct pend as [|[| |n] pend]; cbn; try (repeat split; reflexivity);
    destruct (JSON.parse data); repeat split.
Qed.

Lemma lastEntries_short (n : Z) (hist : list value) :
  (Z.of_nat (List.length hist) <= n)%Z -> lastEntries n hist = hist.
Proof.
  intros H. unfold lastEntries.
  replace (List.length hist - Z.to_nat n)%nat with 0%nat by lia. reflexivity.
Qed.

Lemma lastEntries_length (n : Z) (hist : list value) :
  (0 <= n)%Z -> (Z.of_nat (List.length (lastEntries n hist)) <= n)%Z.
Proof. intros H. unfold lastEntries. rewrite length_skipn. lia. Qed.

(** X10.  Saving what was just loaded changes nothing: after a fulfilled
    save, a load followed by a save of the loaded history with the same
    configuration leaves the file exactly as the first save wrote it. *)
Theorem resave_of_loaded_history_is_stable
        (hist loaded : list value) (config : HistoryConfig) (w : World) :
  (0 < maxSize config)%Z ->
  wellFormedAll hist ->
  fulfilsNext 5 w ->
  let w1 := after (saveCommandHistory hist config) w in
  let w2 := after loadCommandHistory w1 in
  result loadCommandHistory w1 = Ok loaded ->
  historyFile (after (saveCommandHistory loaded config) w2) = historyFile w1.
Proof.
  intros Hpos Hwf Hio w1 w2 Hload.
  assert (Hio2 : fulfilsNext 2 w).
  { unfold fulfilsNext in *. rewrite Forall_forall in Hio |- *.
    intros o Ho. apply Hio.
    destruct (pending w) as [|a [|b l]]; simpl in *; tauto. }
  destruct (save_fulfilled hist config w Hio2) as (Hfile & _ & Hpend).
  fold w1 in Hfile, Hpend.
  assert (Hio1 : fulfilsNext 3 w1) by exact (fulfilsNext_skipn 2 3 w w1 Hio Hpend).
  assert (Hio1' : fulfilsNext 1 w1).
  { unfold fulfilsNext in *. rewrite Forall_forall in Hio1 |- *.
    intros o Ho. apply Hio1.
    destruct (pending w1) as [|a l]; simpl in *; tauto. }
  rewrite (load_reads_file w1 _ Hfile Hio1') in Hload.
  unfold document in Hload. rewrite (Array_slice_last _ _ Hpos) in Hload.
  rewrite JSONFacts.parse_stringify in Hload
    by (apply wellFormed_array; now apply Forall_skipn).
  injection Hload as <-.
  destruct (load_keeps_file w1) as (Hf2 & _ & Hp2). fold w2 in Hf2, Hp2.
  rewrite Hfile in Hp2.
  assert (Hio3 : fulfilsNext 2 w2) by exact (fulfilsNext_skipn 1 2 w1 w2 Hio1 Hp2).
  destruct (save_fulfilled (skipn (List.length hist - Z.to_nat (maxSize config)) hist)
              config w2 Hio3) as (Hfile3 & _ & _).
  rewrite Hfile3, Hfile. unfold document.
  rewrite !(Array_slice_last _ _ Hpos).
  fold (lastEntries (maxSize config) hist).
  fold (lastEntries (maxSize config) (lastEntries (maxSize config) hist)).
  rewrite (lastEntries_short _ (lastEntries (maxSize config) hist)); [reflexivity|].
  apply lastEntries_length. lia.
Qed.

(** X11.  [loadCommandHistory] only reads: whatever happens, the backing
    file is afterwards what it was before (an absent file is not created).
    Hence, when both reads are fulfilled, a second load returns what the
    first one returned. *)
Theorem load_never_writes (w : World) :
  historyFile (after loadCommandHistory w) = historyFile w
  /\ (fulfilsNext 2 w ->
      result loadCommandHistory (after loadCommandHistory w)
      = result loadCommandHistory w).
Proof.
  destruct (load_keeps_file w) as (Hf & _ & Hp). split; [exact Hf|].
  intros Hio. destruct (historyFile w) as [data|] eqn:E.
  - assert (Hio1 : fulfilsNext 1 w).
    { unfold fulfilsNext in *. rewrite Forall_forall in Hio |- *.
      intros o Ho. apply Hio.
      destruct (pending w) as [|a l]; simpl in *; tauto. }
    rewrite (load_reads_file w data E Hio1).
    apply (load_reads_file _ data Hf).
    exact (fulfilsNext_skipn 1 1 w _ Hio Hp).
  - destruct w as [file pend cons clk]. cbn in E. subst file. reflexivity.
Qed.

(** X12.  What a load reports, whatever the runtime's [JSON.parse] and
    its values are.  An absent file is not a failure: nothing is logged
    and the world is untouched.  A text for which the parser returns a
    value, an array or anything else, is not reported either.  A text on
    which the parser throws is logged once, with the error thrown, and a
    rejected read is logged once with its error. *)
Theorem load_reports_only_failures {rt : AnyRuntime.JsonRuntime} (w : World) :
  (historyFile w = None -> after AnyRuntime.loadCommandHistory w = w)
  /\ (forall data v,
        historyFile w = Some data -> fulfilsNext 1 w ->
        AnyRuntime.JSON_parse data = Ok v ->
        console (after AnyRuntime.loadCommandHistory w) = console w)
  /\ (forall data e,
        historyFile w = Some data -> fulfilsNext 1 w ->
        AnyRuntime.JSON_parse data = Thrown e ->
        console (after AnyRuntime.loadCommandHistory w)
        = console w ++ [ConsoleError "Failed to load command history:" e])
  /\ (historyFile w <> None -> ~ fulfilsNext 1 w ->
      exists err,
        console (after AnyRuntime.loadCommandHistory w)
        = console w ++ [ConsoleError "Failed to load command history:" err]).
Proof.
  split; [|split; [|split]].
  - destruct w as [file pend cons clk]. unfold AnyRuntime.loadCommandHistory.
    run_io. intros ->. reflexivity.
  - intros data v Hf Hio Hp. unfold after.
    rewrite (load_reads_any_file w data Hf Hio), Hp. reflexivity.
  - intros data e Hf Hio Hp. unfold after.
    rewrite (load_reads_any_file w data Hf Hio), Hp. reflexivity.
  - destruct w as [file pend cons clk]. unfold fulfilsNext, AnyRuntime.loadCommandHistory.
    run_io. intros Hf Hio. destruct file as [data|]; [|congruence]. cbn.
    destruct pend as [|[| |n] pend]; cbn in *; eauto.
    + elim Hio. constructor.
    + elim Hio. repeat constructor.
Qed.

(** X20.  The load under any runtime, in full.  It never throws, it
    leaves the backing file and the clock as they were, and it returns
    something else than the empty array only when the file exists, the
    read is fulfilled and the parser returned an array: that array. *)
Theorem load_is_total_and_only_reads {rt : AnyRuntime.JsonRuntime} (w : World) :
  (exists v, result AnyRuntime.loadCommandHistory w = Ok v)
  /\ historyFile (after AnyRuntime.loadCommandHistory w) = historyFile w
  /\ clock (after AnyRuntime.loadCommandHistory w) = clock w
  /\ (result AnyRuntime.loadCommandHistory w <> Ok AnyRuntime.emptyArray ->
      exists data v,
        historyFile w = Some data /\ fulfilsNext 1 w
        /\ AnyRuntime.JSON_parse data = Ok v
        /\ AnyRuntime.Array_isArray v = true
        /\ result AnyRuntime.loadCommandHistory w = Ok v).
Proof.
  destruct w as [file pend cons clk]. unfold fulfilsNext, AnyRuntime.loadCommandHistory.
  run_io.
  destruct file as [data|]; cbn.
  - destruct pend as [|[| |n] pend]; cbn;
      try (repeat split; eauto; intros H; now elim H);
      destruct (AnyRuntime.JSON_parse data) as [v|e] eqn:Ep; cbn;
      try (repeat split; eauto; intros H; now elim H);
      destruct (AnyRuntime.Array_isArray v) eqn:Ea;
      try (repeat split; eauto; intros H; now elim H);
      (split; [eauto | split; [reflexivity | split; [reflexivity |]]]);
      intros _; exists data, v; repeat split; auto; repeat constructor.
  - repeat split; eauto. intros H. now elim H.
Qed.

(** X13.  A clear that is interrupted after the file was opened still
    loses the history: the file holds a prefix of the two characters of
    the empty array, and a following load returns the empty sequence;
    [clearCommandHistory] itself returns normally. *)
Theorem interrupted_clear_empties_history (w : World) (n : nat) (rest : list Outcome) :
  historyFile w <> None ->
  pending w = RejectsAfter n :: rest ->
  result clearCommandHistory w = Ok tt
  /\ (exists part,
        historyFile (after clearCommandHistory w) = Some part
        /\ isPrefixOf part (JSON.stringify (JArray []) 0))
  /\ result loadCommandHistory (after clearCommandHistory w) = Ok [].
Proof.
  intros Hf Hp.
  assert (Hfile : historyFile (after clearCommandHistory w)
                  = Some (prefix n (JSON.stringify (JArray []) 0))
                  /\ result clearCommandHistory w = Ok tt).
  { destruct w as [file pend cons clk]. cbn [pending historyFile] in *. subst pend.
    run_io. destruct file; [|congruence]. split; reflexivity. }
  destruct Hfile as [Hfile Hres].
  split; [exact Hres|]. split.
  - eexists. split; [exact Hfile|]. now exists n.
  - exact (load_prefix_of_empty_array _ n Hfile).
Qed.

(** X14.  What a clear reports: it never throws; it logs nothing when
    the file is absent or the write is fulfilled, and one failure record
    when the file exists and the write is not fulfilled. *)
Theorem clear_reports_only_failures (w : World) :
  result clearCommandHistory w = Ok tt
  /\ (historyFile w = None \/ fulfilsNext 1 w ->
      console (after clearCommandHistory w) = console w)
  /\ (historyFile w <> None -> ~ fulfilsNext 1 w ->
      exists err,
        console (after clearCommandHistory w)
        = console w ++ [ConsoleError "Failed to clear command history:" err]).
Proof.
  destruct w as [file pend cons clk]. unfold fulfilsNext. run_io.
  split; [|split].
  - destruct file; cbn; [|reflexivity].
    destruct pend as [|[| |n] pend]; reflexivity.
  - intros [->|Hio]; [reflexivity|].
    destruct file; cbn; [|reflexivity].
    destruct pend as [|o pend]; cbn in *; [reflexivity|].
    inversion Hio; subst. reflexivity.
  - intros Hf Hio. destruct file as [data|]; [|congruence]. cbn.
    destruct pend as [|[| |n] pend]; cbn in *; eauto.
    + elim Hio. constructor.
    + elim Hio. repeat constructor.
Qed.

End Persistence.

(** ** Further properties of the redaction filter *)

Section FilterMore.

Context {engine : RegExpEngine}.

Import JSON History Session.

Lemma existsb_incl {A : Type} (f : A -> bool) (l l' : list A) :
  incl l l' -> existsb f l = true -> existsb f l' = true.
Proof.
  intros Hincl H. apply existsb_exists in H. destruct H as (x & Hx & Hf).
  apply existsb_exists. exists x. split; [now apply Hincl | exact Hf].
Qed.

Lemma sensitive_incl (command : string) (P Q : list string) :
  incl P Q ->
  isSensitiveCommand command P = Ok true -> isSensitiveCommand command Q = Ok true.
Proof.
  intros Hincl. rewrite !isSensitiveCommand_total. intros [= H]. f_equal.
  apply orb_true_iff in H. apply orb_true_iff.
  destruct H as [H|H]; [now left | right]. exact (existsb_incl _ P Q Hincl H).
Qed.

(** X15.  Caller patterns only add: a command that is sensitive under a
    list of patterns is sensitive under every list that contains those
    patterns, so no caller pattern switches a built-in rule off; and two
    lists with the same patterns, in any order and with any repetition,
    give the same answer. *)
Theorem caller_patterns_only_add (command : string) (P Q : list string) :
  incl P Q ->
  (isSensitiveCommand command P = Ok true -> isSensitiveCommand command Q = Ok true)
  /\ (incl Q P -> isSensitiveCommand command P = isSensitiveCommand command Q).
Proof.
  intros HPQ. split; [now apply sensitive_incl|].
  intros HQP.
  pose proof (sensitive_incl command P Q HPQ) as H1.
  pose proof (sensitive_incl command Q P HQP) as H2.
  rewrite !isSensitiveCommand_total in *.
  destruct (_ || existsb _ P), (_ || existsb _ Q); try reflexivity.
  - now rewrite H1.
  - now rewrite H2.
Qed.

(** *** The case of letters *)

Lemma caseBlindCheck_all (a b : ascii) : caseBlindCheck a b = true.
Proof.
  revert b. apply RegExpFacts.forall_ascii. revert a. apply RegExpFacts.forall_ascii.
  vm_compute. reflexivity.
Qed.

Lemma sameLower_classes (a b : ascii) :
  sameLower a b ->
  Spec.isTokenChar a = Spec.isTokenChar b
  /\ RegExp.isWordChar a = RegExp.isWordChar b.
Proof.
  intros H. pose proof (caseBlindCheck_all a b) as C. unfold caseBlindCheck in C.
  apply Ascii.eqb_eq in H. rewrite H in C. cbn [implb] in C.
  apply andb_true_iff in C. destruct C as [C1 C2].
  split; now apply Bool.eqb_prop.
Qed.

Lemma sameLower_lastChar (l l' : list ascii) :
  Forall2 sameLower l l' ->
  forall prev prev',
    RegExp.wordAt prev = RegExp.wordAt prev' ->
    RegExp.wordAt (RegExp.lastChar prev l) = RegExp.wordAt (RegExp.lastChar prev' l').
Proof.
  induction 1 as [|a b l l' Hab _ IH]; intros prev prev' Hp; [exact Hp|].
  rewrite !RegExpFacts.lastChar_cons. apply IH. cbn.
  now destruct (sameLower_classes a b Hab).
Qed.

Lemma sameLower_head (l l' : list ascii) :
  Forall2 sameLower l l' ->
  RegExp.wordAt (hd_error l) = RegExp.wordAt (hd_error l').
Proof.
  intros [|a b ? ? Hab _]; [reflexivity|]. cbn.
  now destruct (sameLower_classes a b Hab).
Qed.

Lemma sameLower_map (l l' : list ascii) :
  Forall2 sameLower l l' -> map Str.toLower l = map Str.toLower l'.
Proof. induction 1 as [|a b l l' Hab _ IH]; cbn; congruence. Qed.

Lemma sameLower_split (l1 l2 l3 l' : list ascii) :
  Forall2 sameLower (l1 ++ l2 ++ l3) l' ->
  exists l1' l2' l3',
    l' = l1' ++ l2' ++ l3'
    /\ Forall2 sameLower l1 l1' /\ Forall2 sameLower l2 l2'
    /\ Forall2 sameLower l3 l3'.
Proof.
  intros H. apply Forall2_app_inv_l in H. destruct H as (l1' & r & H1 & H & ->).
  apply Forall2_app_inv_l in H. destruct H as (l2' & l3' & H2 & H3 & ->).
  now exists l1', l2', l3'.
Qed.

Lemma builtinSensitive_case (c1 c2 : string) :
  Forall2 sameLower (Str.chars c1) (Str.chars c2) ->
  Spec.builtinSensitive c1 -> Spec.builtinSensitive c2.
Proof.
  intros Hsame.
  assert (Hword : forall w, Spec.wholeWord w c1 -> Spec.wholeWord w c2).
  { intros w (pre & mid & post & E & Hmid & Hb1 & Hb2).
    rewrite E in Hsame.
    destruct (sameLower_split _ _ _ _ Hsame) as (pre' & mid' & post' & E' & H1 & H2 & H3).
    exists pre', mid', post'. repeat split.
    - exact E'.
    - now rewrite <- (sameLower_map _ _ H2).
    - unfold Spec.charBefore in *.
      change (RegExp.wordAt (RegExp.lastChar None pre') = false).
      now rewrite <- (sameLower_lastChar _ _ H1 None None eq_refl).
    - now rewrite <- (sameLower_head _ _ H3). }
  unfold Spec.builtinSensitive.
  intros [Htok | [H | [H | [H | H]]]]; [left | right; left | right; right; left
    | right; right; right; left | right; right; right; right]; try (now apply Hword).
  destruct Htok as (pre & mid & post & E & Hlen & Hall & Hb1 & Hb2).
  rewrite E in Hsame.
  destruct (sameLower_split _ _ _ _ Hsame) as (pre' & mid' & post' & E' & H1 & H2 & H3).
  exists pre', mid', post'. repeat split.
  - exact E'.
  - now rewrite <- (Forall2_length H2).
  - clear - H2 Hall. induction H2 as [|a b l l' Hab _ IH]; [constructor|].
    inversion Hall; subst. constructor; [|now apply IH].
    destruct (sameLower_classes a b Hab) as [<- _]. assumption.
  - unfold Spec.atWordBoundary, Spec.charBefore in *.
    change (RegExp.wordAt (RegExp.lastChar None pre')
            <> RegExp.wordAt (hd_error (mid' ++ post'))).
    rewrite <- (sameLower_lastChar _ _ H1 None None eq_refl).
    rewrite <- (sameLower_head (mid ++ post) (mid' ++ post')); [exact Hb1|].
    now apply Forall2_app.
  - unfold Spec.atWordBoundary, Spec.charBefore in *.
    change (RegExp.wordAt (RegExp.lastChar None (pre' ++ mid'))
            <> RegExp.wordAt (hd_error post')).
    rewrite <- (sameLower_lastChar (pre ++ mid) (pre' ++ mid')
                  (Forall2_app H1 H2) None None eq_refl).
    now rewrite <- (sameLower_head _ _ H3).
Qed.

Lemma sameLower_sym (l l' : list ascii) :
  Forall2 sameLower l l' -> Forall2 sameLower l' l.
Proof.
  induction 1; constructor; [unfold sameLower in *; congruence | assumption].
Qed.

(** X16.  The built-in rules do not look at the case of ASCII letters:
    two commands that differ only there get the same answer from the
    filter when there are no caller patterns. *)
Theorem builtin_rules_ignore_letter_case (c1 c2 : string) :
  sameUpToCase c1 c2 ->
  isSensitiveCommand c1 [] = isSensitiveCommand c2 [].
Proof.
  intros H. rewrite !isSensitiveCommand_total. cbn [existsb]. rewrite !orb_false_r.
  f_equal.
  assert (Hiff : existsb (fun pattern => RegExp.test pattern c1) SENSITIVE_PATTERNS = true
                 <-> existsb (fun pattern => RegExp.test pattern c2) SENSITIVE_PATTERNS
                     = true).
  { rewrite !RegExpFacts.builtin_patterns_spec. split.
    - now apply builtinSensitive_case.
    - apply builtinSensitive_case. now apply sameLower_sym. }
  destruct (existsb _ SENSITIVE_PATTERNS),
           (existsb (fun pattern => RegExp.test pattern c2) SENSITIVE_PATTERNS);
    try reflexivity.
  - symmetry. now apply Hiff.
  - now apply Hiff.
Qed.

(** *** Long words *)

Lemma wordIsToken (c : ascii) :
  RegExp.isWordChar c = true -> Spec.isTokenChar c = true.
Proof.
  assert (H : wordIsTokenCheck c = true).
  { revert c. apply RegExpFacts.forall_ascii. vm_compute. reflexivity. }
  unfold wordIsTokenCheck in H. intros Hw. now rewrite Hw in H.
Qed.

(** The word characters at the start of [post], and what follows them. *)
Lemma split_word_prefix (post : list ascii) :
  exists r post',
    post = r ++ post'
    /\ Forall (fun c => RegExp.isWordChar c = true) r
    /\ RegExp.wordAt (hd_error post') = false.
Proof.
  induction post as [|c post (r & post' & -> & Hr & Hb)].
  - now exists [], [].
  - destruct (RegExp.isWordChar c) eqn:Hc.
    + exists (c :: r), post'. repeat split; [now constructor | exact Hb].
    + exists [], (c :: r ++ post'). repeat split; [constructor | exact Hc].
Qed.

(** The word characters at the end of [pre], and what precedes them. *)
Lemma split_word_suffix (pre : list ascii) :
  exists pre' l,
    pre = pre' ++ l
    /\ Forall (fun c => RegExp.isWordChar c = true) l
    /\ RegExp.wordAt (Spec.charBefore pre') = false.
Proof.
  induction pre as [|c pre (pre' & l & -> & Hl & Hb)] using rev_ind.
  - now exists [], [].
  - destruct (RegExp.isWordChar c) eqn:Hc.
    + exists pre', (l ++ [c]). rewrite app_assoc. repeat split; [|exact Hb].
      apply Forall_app. split; [exact Hl | now repeat constructor].
    + exists ((pre' ++ l) ++ [c]), []. rewrite app_nil_r. repeat split; [constructor|].
      rewrite RegExpFacts.charBefore_lastChar, RegExpFacts.lastChar_app. exact Hc.
Qed.

Lemma wordRun_tokenLike (n : nat) (command : string) :
  (20 <= n)%nat -> hasWordRun n command -> Spec.tokenLike command.
Proof.
  intros Hn (pre & mid & post & E & Hlen & Hmid).
  destruct (split_word_suffix pre) as (pre' & l & -> & Hl & Hb1).
  destruct (split_word_prefix post) as (r & post' & -> & Hr & Hb2).
  assert (Hall : RegExp.allIn RegExp.isWordChar (l ++ mid ++ r)).
  { apply Forall_app. split; [exact Hl|]. apply Forall_app. now split. }
  assert (Hne : l ++ mid ++ r <> []).
  { intros H. apply (f_equal (@List.length ascii)) in H.
    rewrite !length_app in H. simpl in H. lia. }
  exists pre', (l ++ mid ++ r), post'. repeat split.
  - rewrite E. now rewrite <- !app_assoc.
  - rewrite !length_app. lia.
  - revert Hall. apply Forall_impl. intros c. apply wordIsToken.
  - unfold Spec.atWordBoundary. rewrite Hb1.
    rewrite (RegExpFacts.wordAt_head _ post' Hne Hall). discriminate.
  - unfold Spec.atWordBoundary.
    rewrite RegExpFacts.charBefore_lastChar, RegExpFacts.lastChar_app.
    rewrite (RegExpFacts.wordAt_lastChar _ _ Hne Hall), Hb2. discriminate.
Qed.

(** X17.  Any command with twenty or more word characters (letters,
    digits, underscore) in a row is sensitive, whatever the caller
    patterns: long file names, hashes and identifiers are classified like
    keys. *)
Theorem long_words_are_sensitive (command : string) (P : list string) :
  hasWordRun 20 command -> isSensitiveCommand command P = Ok true.
Proof.
  intros H. rewrite isSensitiveCommand_total. f_equal.
  apply orb_true_iff. left. apply RegExpFacts.builtin_patterns_spec.
  left. now apply (wordRun_tokenLike 20).
Qed.

End FilterMore.

(** ** Sessions: one [addToHistory] after another *)

Section Sessions.

Context {engine : RegExpEngine}.

Import JSON History Claims Session.

(** X18.  A session, that is one [addToHistory] after another on the
    history the previous call returned, never throws and returns the
    starting history followed by one entry for each command that was not
    blank, not sensitive and not equal to the command stored just before
    it, in the order the commands were given (and nothing when saving is
    off). *)
Theorem session_stores_filtered_commands
        (commands : list string) (hist : list value) (config : HistoryConfig)
        (w : World) :
  exists added,
    result (addAll commands hist config) w = Ok (hist ++ added)
    /\ entriesFor added (stored config (lastCommand hist) commands).
Proof.
  revert hist w. induction commands as [|c rest IH]; intros hist w.
  - exists []. split; [cbn; now rewrite app_nil_r | constructor].
  - cbn [addAll stored]. unfold result, bind.
    destruct (storable config (lastCommand hist) c) eqn:E.
    + rewrite (addToHistory_stores _ _ _ _ E).
      destruct (IH (hist ++ [newEntry c w])
                   (after (saveCommandHistory (hist ++ [newEntry c w]) config)
                          (logged hist w))) as (added & Hr & Hadded).
      rewrite lastCommand_snoc in Hadded.
      exists (newEntry c w :: added). split.
      * unfold result in Hr. rewrite Hr. now rewrite <- app_assoc.
      * constructor; [now exists (clock w) | exact Hadded].
    + rewrite (addToHistory_skips _ _ _ _ E). apply IH.
Qed.

Lemma addAll_reliable (commands : list string) (config : HistoryConfig) :
  forall hist w,
    pending w = [] -> wellFormedAll hist ->
    exists h,
      result (addAll commands hist config) w = Ok h
      /\ wellFormedAll h
      /\ (stored config (lastCommand hist) commands = [] ->
          h = hist /\ after (addAll commands hist config) w = w)
      /\ (stored config (lastCommand hist) commands <> [] ->
          historyFile (after (addAll commands hist config) w)
          = Some (document h config)).
Proof.
  induction commands as [|c rest IH]; intros hist w Hp Hwf.
  - exists hist. cbn. split; [reflexivity|]. split; [assumption|].
    split; [now split | congruence].
  - cbn [addAll stored]. unfold result, after, bind.
    destruct (storable config (lastCommand hist) c) eqn:E.
    + rewrite (addToHistory_stores _ _ _ _ E).
      set (h1 := hist ++ [newEntry c w]).
      set (w1 := after (saveCommandHistory h1 config) (logged hist w)).
      assert (Hio : fulfilsNext 2 (logged hist w)).
      { unfold fulfilsNext. cbn [logged pending]. rewrite Hp. constructor. }
      destruct (save_fulfilled h1 config _ Hio) as (Hfile & _ & Hpend).
      fold w1 in Hfile, Hpend. cbn [logged pending] in Hpend. rewrite Hp in Hpend.
      assert (Hwf1 : wellFormedAll h1).
      { apply Forall_app. split; [exact Hwf|]. constructor; [reflexivity | constructor]. }
      destruct (IH h1 w1 Hpend Hwf1) as (h & Hr & Hwfh & Hnone & Hsome).
      unfold h1 in Hnone, Hsome. rewrite lastCommand_snoc in Hnone, Hsome.
      fold h1 in Hnone, Hsome.
      exists h. unfold result, after in *.
      split; [exact Hr|]. split; [exact Hwfh|]. split; [discriminate|].
      intros _. destruct (stored config (Some c) rest) eqn:Es.
      * destruct (Hnone eq_refl) as [-> ->]. exact Hfile.
      * apply Hsome. discriminate.
    + rewrite (addToHistory_skips _ _ _ _ E). apply (IH hist w Hp Hwf).
Qed.

(** X19.  In an environment that fulfils every call, a session that
    stores at least one command leaves in the file the last [maxSize]
    entries of the history it returns; a session that stores none leaves
    the world untouched. *)
Theorem session_persists_returned_history
        (commands : list string) (hist h : list value) (config : HistoryConfig)
        (w : World) :
  pending w = [] ->
  wellFormedAll hist ->
  (0 < maxSize config)%Z ->
  result (addAll commands hist config) w = Ok h ->
  (stored config (lastCommand hist) commands <> [] ->
   persisted (after (addAll commands hist config) w)
   = Some (lastEntries (maxSize config) h))
  /\ (stored config (lastCommand hist) commands = [] ->
      h = hist /\ after (addAll commands hist config) w = w).
Proof.
  intros Hp Hwf Hpos Hr.
  destruct (addAll_reliable commands config hist w Hp Hwf)
    as (h' & Hr' & Hwfh & Hnone & Hsome).
  rewrite Hr in Hr'. injection Hr' as <-.
  split; [|exact Hnone].
  intros Hne. specialize (Hsome Hne).
  unfold document in Hsome. rewrite (Array_slice_last _ _ Hpos) in Hsome.
  apply persisted_document; [|exact Hsome]. now apply Forall_skipn.
Qed.

End Sessions.

(** ** The further properties at concrete inputs *)

Section MoreInstances.

Import JSON History Claims Session Examples Inputs Texts.

Ltac solve_due :=
  unfold due, lastCommandIs;
  split; [reflexivity|];
  split; [vm_compute; discriminate|];
  split; [vm_compute; reflexivity | vm_compute; discriminate].

Lemma blank_or_disabled_is_ignored_witness :
  addToHistory (engine := literalEngine) "   " threeEntries DEFAULT_HISTORY_CONFIG
    storedWorld = (Ok threeEntries, storedWorld)
  /\ addToHistory (engine := literalEngine) "ls" threeEntries disabled storedWorld
     = (Ok threeEntries, storedWorld).
Proof.
  split.
  - apply (blank_or_disabled_is_ignored (engine := literalEngine)).
    right. unfold blank. repeat constructor.
  - apply (blank_or_disabled_is_ignored (engine := literalEngine)).
    left. reflexivity.
Defined.

Lemma unchanged_history_untouched_world_witness :
  after (addToHistory (engine := literalEngine) "make test" threeEntries
           DEFAULT_HISTORY_CONFIG) storedWorld = storedWorld.
Proof.
  apply (unchanged_history_untouched_world (engine := literalEngine)).
  vm_compute. reflexivity.
Defined.

Lemma repeated_command_is_ignored_witness :
  addToHistory (engine := literalEngine) "ls" [entry "ls" 1700000000003] keepTwo
    storedWorld = (Ok [entry "ls" 1700000000003], storedWorld).
Proof.
  apply (repeated_command_is_ignored (engine := literalEngine)
           "ls" [] [entry "ls" 1700000000003] keepTwo freshWorld storedWorld).
  vm_compute. reflexivity.
Defined.

Lemma append_persists_trimmed_returns_untrimmed_witness :
  result (addToHistory (engine := literalEngine) "ls" threeEntries keepTwo) freshWorld
  = Ok (threeEntries ++ [entry "ls" 1700000000003])
  /\ persisted (after (addToHistory (engine := literalEngine) "ls" threeEntries keepTwo)
                  freshWorld)
     = Some [entry "make test" 1700000000002; entry "ls" 1700000000003]
  /\ console (after (addToHistory (engine := literalEngine) "ls" threeEntries keepTwo)
                freshWorld)
     = [ConsoleLog "Adding to history:" threeEntries].
Proof.
  apply (append_persists_trimmed_returns_untrimmed (engine := literalEngine)
           "ls" threeEntries keepTwo freshWorld).
  - solve_due.
  - cbn. lia.
  - repeat constructor.
  - constructor.
Defined.

Lemma append_then_load_witness :
  result loadCommandHistory
    (after (addToHistory (engine := literalEngine) "ls" threeEntries keepTwo) freshWorld)
  = Ok [entry "make test" 1700000000002; entry "ls" 1700000000003].
Proof.
  apply (append_then_load (engine := literalEngine) "ls" threeEntries keepTwo freshWorld).
  - solve_due.
  - cbn. lia.
  - repeat constructor.
  - constructor.
Defined.

Lemma append_survives_rejected_save_witness :
  result (addToHistory (engine := literalEngine) "ls" threeEntries keepTwo)
    rejectingWorld
  = Ok (threeEntries ++ [entry "ls" 1700000000003])
  /\ historyFile (after (addToHistory (engine := literalEngine) "ls" threeEntries keepTwo)
                    rejectingWorld)
     = Some oneEntryFile
  /\ exists err,
       console (after (addToHistory (engine := literalEngine) "ls" threeEntries keepTwo)
                  rejectingWorld)
       = [ConsoleLog "Adding to history:" threeEntries;
          ConsoleError "Failed to save command history:" err].
Proof.
  apply (append_survives_rejected_save (engine := literalEngine)
           "ls" threeEntries keepTwo rejectingWorld).
  - solve_due.
  - left. exists Rejects, []. split; [reflexivity | discriminate].
Defined.

Lemma save_never_throws_and_logs_failures_witness :
  console (after (saveCommandHistory threeEntries keepTwo) freshWorld) = []
  /\ (exists err,
        console (after (saveCommandHistory threeEntries keepTwo) fullDiskWorld)
        = [ConsoleError "Failed to save command history:" err])
  /\ historyFile (after (saveCommandHistory threeEntries keepTwo) rejectingWorld)
     = Some oneEntryFile.
Proof.
  destruct (save_never_throws_and_logs_failures threeEntries keepTwo freshWorld)
    as (_ & Hquiet & _ & _).
  destruct (save_never_throws_and_logs_failures threeEntries keepTwo fullDiskWorld)
    as (_ & _ & Hlogs & _).
  destruct (save_never_throws_and_logs_failures threeEntries keepTwo rejectingWorld)
    as (_ & _ & _ & Hkeeps).
  split; [|split].
  - apply Hquiet. constructor.
  - apply Hlogs. unfold fulfilsNext. cbn. intros H.
    inversion H as [|? ? _ H']. inversion H' as [|? ? E _]. discriminate E.
  - apply Hkeeps. left. exists Rejects, []. split; [reflexivity | discriminate].
Defined.

Lemma save_with_nonpositive_maxSize_witness :
  persisted (after (saveCommandHistory threeEntries keepAll) freshWorld)
  = Some threeEntries
  /\ persisted (after (saveCommandHistory threeEntries dropOne) freshWorld)
     = Some [entry "ls" 1700000000001; entry "make test" 1700000000002].
Proof.
  split.
  - apply (save_with_nonpositive_maxSize threeEntries keepAll freshWorld).
    + cbn. lia.
    + repeat constructor.
    + constructor.
  - apply (save_with_nonpositive_maxSize threeEntries dropOne freshWorld).
    + cbn. lia.
    + repeat constructor.
    + constructor.
Defined.

Lemma resave_of_loaded_history_is_stable_witness :
  historyFile
    (after (saveCommandHistory
              [entry "ls" 1700000000001; entry "make test" 1700000000002] keepTwo)
           (after loadCommandHistory
                  (after (saveCommandHistory threeEntries keepTwo) freshWorld)))
  = historyFile (after (saveCommandHistory threeEntries keepTwo) freshWorld).
Proof.
  apply (resave_of_loaded_history_is_stable threeEntries
           [entry "ls" 1700000000001; entry "make test" 1700000000002]
           keepTwo freshWorld).
  - cbn. lia.
  - repeat constructor.
  - constructor.
  - vm_compute. reflexivity.
Defined.

Lemma load_never_writes_witness :
  historyFile (after loadCommandHistory notJsonWorld) = Some "not json"
  /\ result loadCommandHistory (after loadCommandHistory storedWorld)
     = result loadCommandHistory storedWorld.
Proof.
  split.
  - exact (proj1 (load_never_writes notJsonWorld)).
  - apply (proj2 (load_never_writes storedWorld)). constructor.
Defined.

Lemma load_reports_only_failures_witness :
  after (AnyRuntime.loadCommandHistory (rt := Lexical.runtime)) freshWorld = freshWorld
  /\ console (after (AnyRuntime.loadCommandHistory (rt := Lexical.runtime)) wideArrayWorld)
     = []
  /\ console (after (AnyRuntime.loadCommandHistory (rt := Lexical.runtime)) fractionWorld)
     = []
  /\ console (after (AnyRuntime.loadCommandHistory (rt := Lexical.runtime)) notJsonWorld)
     = [ConsoleError "Failed to load command history:"
          (SyntaxError "Unexpected token in JSON")]
  /\ exists err,
       console (after (AnyRuntime.loadCommandHistory (rt := AnyRuntime.modelled))
                  rejectingWorld)
       = [ConsoleError "Failed to load command history:" err].
Proof.
  destruct (load_reports_only_failures (rt := Lexical.runtime) freshWorld)
    as (Habsent & _ & _ & _).
  destruct (load_reports_only_failures (rt := Lexical.runtime) wideArrayWorld)
    as (_ & Hwide & _ & _).
  destruct (load_reports_only_failures (rt := Lexical.runtime) fractionWorld)
    as (_ & Hfraction & _ & _).
  destruct (load_reports_only_failures (rt := Lexical.runtime) notJsonWorld)
    as (_ & _ & Hsyntax & _).
  destruct (load_reports_only_failures (rt := AnyRuntime.modelled) rejectingWorld)
    as (_ & _ & _ & Hread).
  split; [|split; [|split; [|split]]].
  - apply Habsent. reflexivity.
  - apply (Hwide wideArrayFile
             (Lexical.TArray
                [Lexical.TNumber "1e3"; Lexical.TNumber "1.5"; Lexical.TString "\u20ac";
                 Lexical.TNumber "9007199254740993"]));
      [reflexivity | constructor | reflexivity].
  - apply (Hfraction "1.5" (Lexical.TNumber "1.5"));
      [reflexivity | constructor | reflexivity].
  - apply (Hsyntax "not json"); [reflexivity | constructor | reflexivity].
  - apply Hread; [discriminate|].
    unfold fulfilsNext. cbn. intros H. inversion H as [|? ? E _]. discriminate E.
Defined.

Lemma load_is_total_and_only_reads_witness :
  exists data v,
    historyFile wideArrayWorld = Some data /\ fulfilsNext 1 wideArrayWorld
    /\ Lexical.read data = Ok v
    /\ (match v with Lexical.TArray _ => true | _ => false end) = true
    /\ result (AnyRuntime.loadCommandHistory (rt := Lexical.runtime)) wideArrayWorld = Ok v.
Proof.
  destruct (load_is_total_and_only_reads (rt := Lexical.runtime) wideArrayWorld)
    as (_ & _ & _ & Honly).
  apply Honly. discriminate.
Defined.

Lemma interrupted_clear_empties_history_witness :
  result clearCommandHistory interruptingWorld = Ok tt
  /\ (exists part,
        historyFile (after clearCommandHistory interruptingWorld) = Some part
        /\ isPrefixOf part (JSON.stringify (JArray []) 0))
  /\ result loadCommandHistory (after clearCommandHistory interruptingWorld) = Ok [].
Proof.
  apply (interrupted_clear_empties_history interruptingWorld 1 []).
  - discriminate.
  - reflexivity.
Defined.

Lemma clear_reports_only_failures_witness :
  console (after clearCommandHistory storedWorld) = []
  /\ exists err,
       console (after clearCommandHistory rejectingWorld)
       = [ConsoleError "Failed to clear command history:" err].
Proof.
  destruct (clear_reports_only_failures storedWorld) as (_ & Hquiet & _).
  destruct (clear_reports_only_failures rejectingWorld) as (_ & _ & Hlogs).
  split.
  - apply Hquiet. right. constructor.
  - apply Hlogs; [discriminate|].
    unfold fulfilsNext. cbn. intros H. inversion H as [|? ? E _]. discriminate E.
Defined.

Lemma caller_patterns_only_add_witness :
  isSensitiveCommand (engine := literalEngine) "export TOKEN=abc123" ["x"; "["] = Ok true
  /\ isSensitiveCommand (engine := literalEngine) "run x" ["x"; "["]
     = isSensitiveCommand (engine := literalEngine) "run x" ["["; "x"; "x"].
Proof.
  split.
  - apply (proj1 (caller_patterns_only_add (engine := literalEngine)
                    "export TOKEN=abc123" [] ["x"; "["] ltac:(intros p []))).
    vm_compute. reflexivity.
  - apply (proj2 (caller_patterns_only_add (engine := literalEngine)
                    "run x" ["x"; "["] ["["; "x"; "x"]
                    ltac:(intros p [<-|[<-|[]]]; cbn; tauto))).
    intros p [<-|[<-|[<-|[]]]]; cbn; tauto.
Defined.

Lemma builtin_rules_ignore_letter_case_witness :
  isSensitiveCommand (engine := literalEngine) "export Token=x" []
  = isSensitiveCommand (engine := literalEngine) "EXPORT tOKEN=X" [].
Proof.
  apply (builtin_rules_ignore_letter_case (engine := literalEngine)).
  unfold sameUpToCase. repeat constructor.
Defined.

Lemma long_words_are_sensitive_witness :
  isSensitiveCommand (engine := literalEngine) longName [] = Ok true.
Proof.
  apply (long_words_are_sensitive (engine := literalEngine)).
  exists (Str.chars "sha256 "), (Str.chars "0123456789abcdef0123456789abcdef"), [].
  split; [reflexivity|]. split; [apply Nat.leb_le; reflexivity|]. repeat constructor.
Defined.

Lemma session_persists_returned_history_witness :
  persisted (after (addAll (engine := literalEngine) fourCommands []
                      DEFAULT_HISTORY_CONFIG) freshWorld)
  = Some [entry "git status" 1700000000003; entry "ls" 1700000000003].
Proof.
  apply (proj1 (session_persists_returned_history (engine := literalEngine)
                  fourCommands []
                  [entry "git status" 1700000000003; entry "ls" 1700000000003]
                  DEFAULT_HISTORY_CONFIG freshWorld
                  eq_refl ltac:(constructor) ltac:(reflexivity)
                  ltac:(vm_compute; reflexivity))).
  vm_compute. discriminate.
Defined.

End MoreInstances.
